(** * Chorus: prompt versioning engine and versioned-record store

    A shallow embedding of the Python package [chorus]
    ([core/versioning.py], [core/models.py], [core/storage.py] and the
    tracking wrapper of [decorators/chorus.py]) together with the
    properties its specification states about it.

    Conventions of the embedding.
    - A Python [str] is a list of characters; a character is a code point
      in the range U+0000..U+00FF, carried by [ascii].  The character
      classes below ([isspace], [isdigit], [lower]) are Python's own on
      that range.  The validator, whose pattern tells the digits of all
      scripts from other characters, is modelled on lists of arbitrary
      code points ([ustr]).
    - A Python [int] is a [Z].
    - A call that may raise returns a [result]: [Ok v] or [Raise e]. *)

From Stdlib Require Import Ascii String Bool Arith NArith ZArith Lia List.
From Stdlib Require Import DecimalString SpecFloat.
From Stdlib Require DecimalFacts DecimalPos.
From Stdlib Require Import Sorting.Sorted Sorting.Permutation.
Import ListNotations.

Local Open Scope list_scope.

(** ** Python strings *)

Definition str := list ascii.

Coercion list_ascii_of_string : string >-> list.

Definition code (c : ascii) : N := N_of_ascii c.

Definition in_range (lo hi : N) (c : ascii) : bool :=
  (N.leb lo (code c) && N.leb (code c) hi)%bool.

(** [str.isspace] on one character, which is also what [\s] matches in a
    [str] pattern: TAB..CR, FS..US, SPACE, NEL and NBSP. *)
Definition isspace (c : ascii) : bool :=
  in_range 9 13 c || in_range 28 32 c || N.eqb (code c) 133 || N.eqb (code c) 160.

(** What [int] reads as a digit in this range. *)
Definition isdecimal (c : ascii) : bool := in_range 48 57 c.

(** [str.isdigit] on one character: the decimal digits and the
    superscripts U+00B2, U+00B3, U+00B9. *)
Definition isdigit_char (c : ascii) : bool :=
  isdecimal c || N.eqb (code c) 178 || N.eqb (code c) 179 || N.eqb (code c) 185.

(** [str.isdigit]: every character is a digit and there is at least one. *)
Definition isdigit (s : str) : bool :=
  match s with
  | [] => false
  | _ => forallb isdigit_char s
  end.

Definition isupper_char (c : ascii) : bool :=
  in_range 65 90 c || (in_range 192 222 c && negb (N.eqb (code c) 215)).

Definition lower_char (c : ascii) : ascii :=
  if isupper_char c then ascii_of_N (code c + 32) else c.

(** [str.lower]. *)
Definition lower (s : str) : str := map lower_char s.

(** [a == b] on strings. *)
Fixpoint str_eqb (a b : str) : bool :=
  match a, b with
  | [], [] => true
  | x :: a', y :: b' => Ascii.eqb x y && str_eqb a' b'
  | _, _ => false
  end.

(** [str.lstrip], [str.rstrip] and [str.strip] without argument. *)
Fixpoint lstrip (s : str) : str :=
  match s with
  | c :: t => if isspace c then lstrip t else s
  | [] => []
  end.

Definition rstrip (s : str) : str := rev (lstrip (rev s)).

Definition strip (s : str) : str := rstrip (lstrip s).

(** [s.split(sep)] for a one-character separator. *)
Fixpoint split_on (sep : ascii) (s : str) : list str :=
  match s with
  | [] => [[]]
  | c :: t =>
      if Ascii.eqb c sep then [] :: split_on sep t
      else match split_on sep t with
           | p :: ps => (c :: p) :: ps
           | [] => [[c]]
           end
  end.

(** [s.split()]: the maximal runs of non-whitespace characters. *)
Fixpoint split_ws (s : str) : list str :=
  match s with
  | [] => []
  | c :: t =>
      if isspace c then split_ws t
      else match t with
           | [] => [[c]]
           | d :: _ =>
               if isspace d then [c] :: split_ws t
               else match split_ws t with
                    | w :: ws => (c :: w) :: ws
                    | [] => [[c]]
                    end
           end
  end.

Fixpoint startswith (p s : str) : bool :=
  match p, s with
  | [], _ => true
  | a :: p', b :: s' => Ascii.eqb a b && startswith p' s'
  | _ :: _, [] => false
  end.

(** [k in s] on strings: [k] occurs in [s] as a substring. *)
Fixpoint contains (k s : str) : bool :=
  startswith k s ||
  match s with
  | [] => false
  | _ :: t => contains k t
  end.

(** [re.sub(r'\s+', ' ', s)]: every maximal run of whitespace becomes one
    space.  [in_run] tells that the previous character was whitespace. *)
Fixpoint sub_ws (in_run : bool) (s : str) : str :=
  match s with
  | [] => []
  | c :: t =>
      if isspace c
      then if in_run then sub_ws true t else " "%char :: sub_ws true t
      else c :: sub_ws false t
  end.

(** ** Results and exceptions *)

Inductive exn : Type :=
| JSONDecodeError
| KeyError (key : str)
| AttributeError (name : str)
| TypeError
| ValueError
| UnicodeDecodeError
| RecursionError
| Exception (msg : str).

Inductive result (A : Type) : Type :=
| Ok (a : A)
| Raise (e : exn).

Arguments Ok {A} a.
Arguments Raise {A} e.

Definition bind {A B : Type} (r : result A) (k : A -> result B) : result B :=
  match r with
  | Ok a => k a
  | Raise e => Raise e
  end.

Notation "x <- r ;; k" := (bind r (fun x => k))
  (at level 61, r at next level, right associativity).

Definition returns {A : Type} (r : result A) : bool :=
  match r with Ok _ => true | Raise _ => false end.

Definition error_of {A : Type} (r : result A) : option exn :=
  match r with Ok _ => None | Raise e => Some e end.

(** ** Integers and their text *)

(** [len(l)] *)
Definition len {A : Type} (l : list A) : Z := Z.of_nat (length l).

Definition digit_val (c : ascii) : Z := Z.of_N (code c) - 48.

(** [sys.get_int_max_str_digits()]: CPython converts between [int] and
    [str] up to this number of digits, 4300 unless the interpreter is
    configured otherwise, and raises [ValueError] beyond it. *)
Definition int_max_str_digits : Z := 4300.

(** [int(s)] for the strings the source passes to it, those on which
    [str.isdigit] holds: the value of a run of decimal digits;
    [ValueError] when a character is not one ([int] does not read the
    superscript digits) and when the digits, leading zeros included, are
    more than [int_max_str_digits]. *)
Definition py_int (s : str) : result Z :=
  match s with
  | [] => Raise ValueError
  | _ =>
      if forallb isdecimal s
      then if (int_max_str_digits <? len s)%Z then Raise ValueError
           else Ok (fold_left (fun acc c => (10 * acc + digit_val c)%Z) s 0%Z)
      else Raise ValueError
  end.

(** The decimal numeral of [n]. *)
Definition int_text (n : Z) : str :=
  list_ascii_of_string (NilEmpty.string_of_int (Z.to_int n)).

(** [str(n)], which is what an f-string field does to an [int]:
    [ValueError] when [n] has more than [int_max_str_digits] digits, the
    sign not counted. *)
Definition str_of_int (n : Z) : result str :=
  if (int_max_str_digits <? len (int_text (Z.abs n)))%Z then Raise ValueError
  else Ok (int_text n).

(** ** [core/versioning.py]: the version codec *)

(** [l[0]] on the list a [split] returned, which is never empty. *)
Definition first (l : list str) : str := hd [] l.

(** [int(parts[i]) if len(parts) > i and parts[i].isdigit() else 0] *)
Definition version_part (parts : list str) (i : nat) : result Z :=
  if (i <? length parts)%nat && isdigit (nth i parts [])
  then py_int (nth i parts [])
  else Ok 0%Z.

Definition parse_version_parts (version : str) : result (Z * Z * Z) :=
  let clean_version := first (split_on "+" (first (split_on "-" version))) in
  let parts := split_on "." clean_version in
  major <- version_part parts 0 ;;
  minor <- version_part parts 1 ;;
  patch <- version_part parts 2 ;;
  Ok (major, minor, patch).

Definition bump_version (current_version bump_type : str) : result str :=
  v <- parse_version_parts current_version ;;
  let '(major, minor, patch) := v in
  if str_eqb bump_type "major"%string
  then a <- str_of_int (major + 1)%Z ;; Ok (a ++ ".0.0"%string)
  else if str_eqb bump_type "minor"%string
  then a <- str_of_int major ;; b <- str_of_int (minor + 1)%Z ;;
       Ok (a ++ "."%string ++ b ++ ".0"%string)
  else a <- str_of_int major ;; b <- str_of_int minor ;;
       c <- str_of_int (patch + 1)%Z ;;
       Ok (a ++ "."%string ++ b ++ "."%string ++ c).

(** ** [core/versioning.py]: the change classifier *)

Definition _normalize_prompt (prompt : str) : str :=
  lower (sub_ws false (strip prompt)).

Definition breaking_keywords : list str :=
  map list_ascii_of_string
    ["instead of"; "no longer"; "removed"; "deprecated"; "breaking";
     "change from"; "replaced with"; "completely different"; "new approach";
     "different format"; "different structure"; "different output";
     "must not"; "cannot"; "will not"; "discontinued"; "obsolete";
     "migrate to"; "upgrade to"; "switch to"; "abandoned"]%string.

Definition feature_keywords : list str :=
  map list_ascii_of_string
    ["also"; "additionally"; "new"; "enhanced"; "improved"; "better";
     "more"; "extra"; "additional"; "further"; "extended"; "expanded";
     "support for"; "now supports"; "can also"; "in addition";
     "optionally"; "option"; "feature"; "capability"; "functionality";
     "include"; "incorporate"; "integrate"; "combine"; "merge"]%string.

Definition functionality_indicators : list str :=
  map list_ascii_of_string
    ["you can now"; "it is now possible"; "added support";
     "new feature"; "enhanced with"; "upgraded to include";
     "now includes"; "now provides"; "now offers"]%string.

(** [keyword in new_prompt and keyword not in old_prompt] *)
Definition new_only (old_prompt new_prompt keyword : str) : bool :=
  contains keyword new_prompt && negb (contains keyword old_prompt).

(** Python sets of words, as duplicate-free lists. *)
Definition str_dec : forall a b : str, {a = b} + {a <> b} := list_eq_dec ascii_dec.

Definition mem (w : str) (A : list str) : bool :=
  if in_dec str_dec w A then true else false.

Definition set_of (l : list str) : list str := nodup str_dec l.
Definition set_inter (A B : list str) : list str := filter (fun w => mem w B) A.
Definition set_union (A B : list str) : list str := nodup str_dec (A ++ B).
Definition set_diff (A B : list str) : list str := filter (fun w => negb (mem w B)) A.

(** The float tests [a / b > n/d] and [a / b < n/d] of the source, on
    non-negative integers [a] and [b > 0], decided exactly.  The quotient
    of two integers below 2^50 is never so close to 0.6, 0.25 or 0.8
    that rounding changes the comparison. *)
Definition ratio_gt (a b n d : Z) : bool := (n * b <? d * a)%Z.
Definition ratio_lt (a b n d : Z) : bool := (d * a <? n * b)%Z.

Definition _is_major_change (old_prompt new_prompt : str) : bool :=
  if existsb (new_only old_prompt new_prompt) breaking_keywords then true else
  let old_sentences := split_on "." old_prompt in
  let new_sentences := split_on "." new_prompt in
  if (0 <? len new_sentences)%Z && (0 <? len old_sentences)%Z &&
     ratio_gt (Z.abs (len new_sentences - len old_sentences))
              (Z.max (len old_sentences) 1) 6 10
  then true else
  if (0 <? len new_prompt)%Z && (0 <? len old_prompt)%Z &&
     (let old_words := set_of (split_ws old_prompt) in
      let new_words := set_of (split_ws new_prompt) in
      let common_words := set_inter old_words new_words in
      let total_words := set_union old_words new_words in
      (0 <? len total_words)%Z &&
      ratio_lt (len common_words) (len total_words) 25 100)
  then true else
  if (0 <? len old_prompt)%Z &&
     ratio_gt (Z.abs (len new_prompt - len old_prompt)) (len old_prompt) 8 10
  then true else
  false.

(** [[s.strip() for s in prompt.split('.') if s.strip()]] *)
Definition sentences (prompt : str) : list str :=
  map strip (filter (fun s => negb (str_eqb (strip s) [])) (split_on "." prompt)).

Definition _is_minor_change (old_prompt new_prompt : str) : bool :=
  if existsb (new_only old_prompt new_prompt) feature_keywords then true else
  let old_words := set_of (split_ws old_prompt) in
  let new_words := set_of (split_ws new_prompt) in
  let new_words_only := set_diff new_words old_words in
  if (8 <? len new_words_only)%Z then true else
  (* [len(new_prompt) > len(old_prompt) * 1.3] *)
  if (0 <? len old_prompt)%Z && (13 * len old_prompt <? 10 * len new_prompt)%Z
  then true else
  let old_sentences := sentences old_prompt in
  let new_sentences := sentences new_prompt in
  if (len old_sentences + 1 <? len new_sentences)%Z then true else
  if existsb (new_only old_prompt new_prompt) functionality_indicators then true else
  false.

Definition analyze_prompt_changes (old_prompt new_prompt : str) : str :=
  if str_eqb old_prompt new_prompt then "patch"%string else
  let old_normalized := _normalize_prompt old_prompt in
  let new_normalized := _normalize_prompt new_prompt in
  if _is_major_change old_normalized new_normalized then "major"%string else
  if _is_minor_change old_normalized new_normalized then "minor"%string else
  "patch"%string.

(** ** Code points

    [is_valid_version] is modelled on strings of any code points,
    because the [\d] of its pattern matches the decimal digits of every
    script.  Which code points are decimal digits is a matter of the
    Unicode database the interpreter carries; the model takes that as
    given, with the one fact about it that the validator's examples
    need. *)

Definition ustr := list N.

(** The code points of a string of the range U+0000..U+00FF. *)
Definition code_points (s : str) : ustr := map code s.

(** [a == b] on strings of code points. *)
Fixpoint ustr_eqb (a b : ustr) : bool :=
  match a, b with
  | [], [] => true
  | x :: a', y :: b' => N.eqb x y && ustr_eqb a' b'
  | _, _ => false
  end.

Definition between (lo hi c : N) : bool := ((lo <=? c) && (c <=? hi))%N.

Class Unicode : Type := {
  (** [chr(c).isdecimal()]: [c] is a decimal digit (general category
      Nd).  This is what [\d] matches in a [str] pattern. *)
  decimal_digit : N -> bool;
  (** Below U+0080 the decimal digits are [0] to [9]. *)
  decimal_digit_ascii :
    forall c, (c < 128)%N -> decimal_digit c = between 48 57 c
}.

(** [chr(c).isspace()] for every code point, which is what [str.strip]
    removes: TAB..CR, FS..US, SPACE, NEL, NBSP, U+1680, U+2000..U+200A,
    U+2028, U+2029, U+202F, U+205F and U+3000. *)
Definition uisspace (c : N) : bool :=
  between 9 13 c || between 28 32 c || (c =? 133)%N || (c =? 160)%N ||
  (c =? 5760)%N || between 8192 8202 c || (c =? 8232)%N || (c =? 8233)%N ||
  (c =? 8239)%N || (c =? 8287)%N || (c =? 12288)%N.

(** [str.strip] on code points. *)
Fixpoint ulstrip (s : ustr) : ustr :=
  match s with
  | c :: t => if uisspace c then ulstrip t else s
  | [] => []
  end.

Definition urstrip (s : ustr) : ustr := rev (ulstrip (rev s)).

Definition ustrip (s : ustr) : ustr := urstrip (ulstrip s).

(** ** Regular expressions, as [re.match] decides them

    The one pattern of the source uses literals, character classes,
    alternation, [*], [+], [?], groups and the anchors [^] and [$]; the
    matcher below decides such patterns by derivatives. *)

Inductive regex : Type :=
| Void
| Eps
| Class (p : N -> bool)
| Cat (r1 r2 : regex)
| Alt (r1 r2 : regex)
| Star (r : regex).

Definition Chr (c : ascii) : regex := Class (N.eqb (code c)).
Definition Plus (r : regex) : regex := Cat r (Star r).
Definition Opt (r : regex) : regex := Alt r Eps.

Fixpoint nullable (r : regex) : bool :=
  match r with
  | Void => false
  | Eps => true
  | Class _ => false
  | Cat r1 r2 => nullable r1 && nullable r2
  | Alt r1 r2 => nullable r1 || nullable r2
  | Star _ => true
  end.

Fixpoint deriv (c : N) (r : regex) : regex :=
  match r with
  | Void => Void
  | Eps => Void
  | Class p => if p c then Eps else Void
  | Cat r1 r2 =>
      if nullable r1
      then Alt (Cat (deriv c r1) r2) (deriv c r2)
      else Cat (deriv c r1) r2
  | Alt r1 r2 => Alt (deriv c r1) (deriv c r2)
  | Star r1 => Cat (deriv c r1) (Star r1)
  end.

(** The whole of [s] is in the language of [r]. *)
Fixpoint fullmatch (r : regex) (s : ustr) : bool :=
  match s with
  | [] => nullable r
  | c :: t => fullmatch (deriv c r) t
  end.

(** [bool(re.match('^' r '$', s))]: without [re.MULTILINE], [$] holds at
    the end of [s] and also just before a newline that ends [s]. *)
Definition re_match_anchored (r : regex) (s : ustr) : bool :=
  fullmatch (Cat r (Opt (Chr "010"))) s.

(** The strings of a regular expression. *)
Inductive Lang : regex -> ustr -> Prop :=
| LEps : Lang Eps []
| LClass p c : p c = true -> Lang (Class p) [c]
| LCat r1 r2 s1 s2 : Lang r1 s1 -> Lang r2 s2 -> Lang (Cat r1 r2) (s1 ++ s2)
| LAltL r1 r2 s : Lang r1 s -> Lang (Alt r1 r2) s
| LAltR r1 r2 s : Lang r2 s -> Lang (Alt r1 r2) s
| LStar0 r : Lang (Star r) []
| LStarS r s1 s2 : Lang r s1 -> Lang (Star r) s2 -> Lang (Star r) (s1 ++ s2).

(** Two expressions of the same shape whose classes agree on the
    characters of [P]. *)
Fixpoint agree (P : N -> Prop) (r r' : regex) : Prop :=
  match r, r' with
  | Void, Void => True
  | Eps, Eps => True
  | Class p, Class q => forall c, P c -> p c = q c
  | Cat r1 r2, Cat r1' r2' => agree P r1 r1' /\ agree P r2 r2'
  | Alt r1 r2, Alt r1' r2' => agree P r1 r1' /\ agree P r2 r2'
  | Star r1, Star r1' => agree P r1 r1'
  | _, _ => False
  end.

(** ** [core/versioning.py]: the validator *)

(** [[a-zA-Z]] and [-]: ranges of a pattern are ranges of code points. *)
Definition isletter (c : N) : bool := between 97 122 c || between 65 90 c.
Definition ishyphen (c : N) : bool := (c =? 45)%N.

(** [[1-9]] *)
Definition re_nonzero : regex := Class (between 49 57).
(** [[a-zA-Z-]] *)
Definition re_alpha : regex := Class (fun c => isletter c || ishyphen c).
(** [[0-9a-zA-Z-]] *)
Definition re_alnum : regex :=
  Class (fun c => between 48 57 c || isletter c || ishyphen c).

(** [[0-9a-zA-Z-]+] *)
Definition re_build_identifier : regex := Plus re_alnum.

Definition dotted (r : regex) : regex := Cat r (Star (Cat (Chr ".") r)).

Section Validator.
Context {U : Unicode}.

(** [\d] *)
Definition re_digit : regex := Class decimal_digit.

(** [0|[1-9]\d*] *)
Definition re_numeric : regex := Alt (Chr "0") (Cat re_nonzero (Star re_digit)).

(** [0|[1-9]\d*|\d*[a-zA-Z-][0-9a-zA-Z-]*] *)
Definition re_pre_identifier : regex :=
  Alt (Chr "0")
    (Alt (Cat re_nonzero (Star re_digit))
         (Cat (Star re_digit) (Cat re_alpha (Star re_alnum)))).

(** The pattern of [is_valid_version], between its [^] and its [$]. *)
Definition semver_pattern : regex :=
  Cat re_numeric (Cat (Chr ".") (Cat re_numeric (Cat (Chr ".") (Cat re_numeric
    (Cat (Opt (Cat (Chr "-") (dotted re_pre_identifier)))
         (Opt (Cat (Chr "+") (dotted re_build_identifier)))))))).

Definition is_valid_version (version : ustr) : bool :=
  match version with
  | [] => false
  | _ => re_match_anchored semver_pattern (ustrip version)
  end.

(** *** The grammar the validator accepts

    [MAJOR.MINOR.PATCH[-PRERELEASE][+BUILD]], with the numbers and the
    identifiers as the pattern has them. *)

(** A number: [0], or a digit from [1] to [9] followed by decimal
    digits, of any script. *)
Definition numeric_identifier (s : ustr) : bool :=
  match s with
  | [] => false
  | c :: t =>
      ((c =? 48)%N && match t with [] => true | _ => false end) ||
      (between 49 57 c && forallb decimal_digit t)
  end.

(** A letter, a digit or a hyphen of ASCII. *)
Definition identifier_char (c : N) : bool :=
  between 48 57 c || isletter c || ishyphen c.

(** A build identifier: letters, digits and hyphens of ASCII, at least
    one. *)
Definition build_identifier (s : ustr) : bool :=
  match s with
  | [] => false
  | _ => forallb identifier_char s
  end.

Fixpoint skip_digits (s : ustr) : ustr :=
  match s with
  | c :: t => if decimal_digit c then skip_digits t else s
  | [] => []
  end.

(** A pre-release identifier: a number, or decimal digits of any script
    followed by a letter or hyphen of ASCII and then by letters, digits
    and hyphens of ASCII. *)
Definition prerelease_identifier (s : ustr) : bool :=
  numeric_identifier s ||
  match skip_digits s with
  | c :: t => (isletter c || ishyphen c) && forallb identifier_char t
  | [] => false
  end.

(** ['.'.join(ids)] *)
Fixpoint join_dots (ids : list ustr) : ustr :=
  match ids with
  | [] => []
  | [i] => i
  | i :: rest => i ++ code "." :: join_dots rest
  end.

(** An optional part: its introducing character and dot-separated
    identifiers, or nothing. *)
Definition optional_part (intro : ascii) (ids : option (list ustr)) : ustr :=
  match ids with
  | None => []
  | Some l => code intro :: join_dots l
  end.

Definition identifiers_ok (ok : ustr -> bool) (ids : option (list ustr)) : Prop :=
  match ids with
  | None => True
  | Some l => l <> [] /\ forallb ok l = true
  end.

Definition semver_grammar (s : ustr) : Prop :=
  exists (major minor patch : ustr) (pre build : option (list ustr)),
    s = major ++ code "." :: minor ++ code "." :: patch
          ++ optional_part "-" pre ++ optional_part "+" build /\
    numeric_identifier major = true /\
    numeric_identifier minor = true /\
    numeric_identifier patch = true /\
    identifiers_ok prerelease_identifier pre /\
    identifiers_ok build_identifier build.

End Validator.

(** *** The grammar of the specification, section 6

    [MAJOR.MINOR.PATCH[-PRERELEASE][+BUILD]] where MAJOR, MINOR and PATCH
    are non-negative integers with no leading zero, the literal [0]
    apart, and PRERELEASE and BUILD are dot-separated identifiers of
    letters, digits and hyphens. *)

Definition spec_integer : regex :=
  Alt (Chr "0") (Cat re_nonzero (Star (Class (between 48 57)))).

Definition spec_pattern : regex :=
  Cat spec_integer (Cat (Chr ".") (Cat spec_integer (Cat (Chr ".") (Cat spec_integer
    (Cat (Opt (Cat (Chr "-") (dotted re_build_identifier)))
         (Opt (Cat (Chr "+") (dotted re_build_identifier)))))))).

Definition spec_grammar (s : ustr) : bool := fullmatch spec_pattern s.

(** ** Python values

    The values a record carries and a snapshot file holds: what
    [json.load] returns, with a dictionary as the list of its items in
    insertion order. *)

#[warnings="-register-all"]
Inductive pyval : Type :=
| VNone
| VBool (b : bool)
| VInt (n : Z)
| VFloat (f : spec_float)
| VStr (s : str)
| VList (l : list pyval)
| VDict (items : list (str * pyval)).

(** Truth value of a Python value, as [or], [not] and [if] test it. *)
Definition truthy (v : pyval) : bool :=
  match v with
  | VNone => false
  | VBool b => b
  | VInt n => negb (n =? 0)%Z
  | VFloat (S754_zero _) => false
  | VFloat _ => true
  | VStr s => negb (str_eqb s [])
  | VList l => match l with [] => false | _ => true end
  | VDict d => match d with [] => false | _ => true end
  end.

(** [a or b] *)
Definition py_or (a b : pyval) : pyval := if truthy a then a else b.

(** Dictionaries with string keys, in insertion order. *)
Section Dict.
Context {V : Type}.

Fixpoint dict_get (k : str) (d : list (str * V)) : option V :=
  match d with
  | [] => None
  | (k', v) :: rest => if str_eqb k k' then Some v else dict_get k rest
  end.

(** [d[k] = v]: a present key keeps its place, a new key goes last. *)
Fixpoint dict_set (k : str) (v : V) (d : list (str * V)) : list (str * V) :=
  match d with
  | [] => [(k, v)]
  | (k', v') :: rest =>
      if str_eqb k k' then (k, v) :: rest else (k', v') :: dict_set k v rest
  end.

Definition dict_values (d : list (str * V)) : list V := map snd d.
End Dict.

(** [data[key]] on a value: [KeyError] on a dictionary without the key,
    [TypeError] on anything that is not a dictionary (a list or a string
    takes no string index, the other values take none). *)
Definition subscript (data : pyval) (key : str) : result pyval :=
  match data with
  | VDict d =>
      match dict_get key d with
      | Some v => Ok v
      | None => Raise (KeyError key)
      end
  | _ => Raise TypeError
  end.

(** [data.get(key, default)] *)
Definition py_get (data : pyval) (key : str) (default : pyval) : result pyval :=
  match data with
  | VDict d =>
      match dict_get key d with
      | Some v => Ok v
      | None => Ok default
      end
  | _ => Raise (AttributeError "get"%string)
  end.

(** ** The library the package runs on

    [datetime], [hashlib] and [json] are outside the repository; the
    package is modelled over any implementation of the calls it makes,
    with the law the [datetime] documentation gives for [fromisoformat].
    Nothing is assumed of [json.dump]: it may raise on a value (an object
    it cannot serialize, a number or a nesting beyond the limits of the
    interpreter), and what it writes may read back as another value (a
    tuple as a list, a key that is not a string as its text). *)

Class Runtime : Type := {
  datetime : Type;
  (** [d.isoformat()] *)
  isoformat : datetime -> str;
  (** [datetime.fromisoformat(s)]; [None] stands for its [ValueError]. *)
  fromisoformat : str -> option datetime;
  (** [d.strftime('%Y%m%d_%H%M%S')] *)
  strftime_stamp : datetime -> str;
  (** [hashlib.md5(s.encode()).hexdigest()] *)
  md5_hexdigest : str -> str;
  (** [json.dump(data, f, indent=2)]: the value [json.load] reads back
      from what was written, or the exception [json.dump] raises. *)
  json_dump : pyval -> result pyval;
  (** [fromisoformat] is the inverse of [isoformat]. *)
  fromisoformat_isoformat : forall d, fromisoformat (isoformat d) = Some d
}.

(** ** [core/models.py] *)

Section Models.
Context {R : Runtime}.

Record PromptVersion : Type := {
  prompt : str;
  version : pyval;
  function_name : pyval;
  description : pyval;
  tags : pyval;
  created_at : datetime;
  prompt_hash : str;
  inputs : pyval;
  output : pyval;
  execution_time : pyval;
  execution_id : pyval
}.

(** [PromptVersion.__init__].  [now] is what [datetime.now()] reads.  The
    only statement that can fail is [prompt.encode()], which a value
    other than a string does not have.  A string of the range of [str]
    always encodes; a prompt with a lone surrogate, which [encode]
    refuses with [UnicodeEncodeError], lies outside that range and
    outside what is stated here about the constructor. *)
Definition PromptVersion_init
    (prompt_ version_ function_name_ description_ tags_ : pyval)
    (created_at_ : option datetime)
    (inputs_ output_ execution_time_ execution_id_ : pyval)
    (now : datetime) : result PromptVersion :=
  match prompt_ with
  | VStr p =>
      let created := match created_at_ with Some d => d | None => now end in
      let hash := firstn 8 (md5_hexdigest p) in
      Ok {| prompt := p;
            version := version_;
            function_name := function_name_;
            description := py_or description_ (VStr []);
            tags := py_or tags_ (VList []);
            created_at := created;
            prompt_hash := hash;
            inputs := py_or inputs_ (VDict []);
            output := output_;
            execution_time := execution_time_;
            execution_id :=
              py_or execution_id_
                (VStr (strftime_stamp created ++ "_"%char :: hash)) |}
  | _ => Raise (AttributeError "encode"%string)
  end.

Definition to_dict (pv : PromptVersion) : pyval :=
  VDict
    [ (list_ascii_of_string "prompt", VStr (prompt pv));
      (list_ascii_of_string "version", version pv);
      (list_ascii_of_string "function_name", function_name pv);
      (list_ascii_of_string "description", description pv);
      (list_ascii_of_string "tags", tags pv);
      (list_ascii_of_string "created_at", VStr (isoformat (created_at pv)));
      (list_ascii_of_string "prompt_hash", VStr (prompt_hash pv));
      (list_ascii_of_string "inputs", inputs pv);
      (list_ascii_of_string "output", output pv);
      (list_ascii_of_string "execution_time", execution_time pv);
      (list_ascii_of_string "execution_id", execution_id pv) ].

(** [datetime.fromisoformat(v)]: [TypeError] unless [v] is a string. *)
Definition py_fromisoformat (v : pyval) : result datetime :=
  match v with
  | VStr s =>
      match fromisoformat s with
      | Some d => Ok d
      | None => Raise ValueError
      end
  | _ => Raise TypeError
  end.

(** [PromptVersion.from_dict]: the arguments are evaluated in the order
    they are written, then the constructor runs. *)
Definition from_dict (data : pyval) (now : datetime) : result PromptVersion :=
  prompt_ <- subscript data "prompt"%string ;;
  version_ <- subscript data "version"%string ;;
  function_name_ <- subscript data "function_name"%string ;;
  description_ <- py_get data "description"%string VNone ;;
  tags_ <- py_get data "tags"%string (VList []) ;;
  created_raw <- subscript data "created_at"%string ;;
  created_at_ <- py_fromisoformat created_raw ;;
  inputs_ <- py_get data "inputs"%string (VDict []) ;;
  output_ <- py_get data "output"%string VNone ;;
  execution_time_ <- py_get data "execution_time"%string VNone ;;
  execution_id_ <- py_get data "execution_id"%string VNone ;;
  PromptVersion_init prompt_ version_ function_name_ description_ tags_
    (Some created_at_) inputs_ output_ execution_time_ execution_id_ now.

(** An attribute read [pv.name]: the instance has the attributes its
    constructor sets, and no others. *)
Inductive attr : Type :=
| AttrVal (v : pyval)
| AttrTime (d : datetime).

Definition getattr (pv : PromptVersion) (name : str) : result attr :=
  if str_eqb name "prompt"%string then Ok (AttrVal (VStr (prompt pv)))
  else if str_eqb name "version"%string then Ok (AttrVal (version pv))
  else if str_eqb name "function_name"%string then Ok (AttrVal (function_name pv))
  else if str_eqb name "description"%string then Ok (AttrVal (description pv))
  else if str_eqb name "tags"%string then Ok (AttrVal (tags pv))
  else if str_eqb name "created_at"%string then Ok (AttrTime (created_at pv))
  else if str_eqb name "prompt_hash"%string then Ok (AttrVal (VStr (prompt_hash pv)))
  else if str_eqb name "inputs"%string then Ok (AttrVal (inputs pv))
  else if str_eqb name "output"%string then Ok (AttrVal (output pv))
  else if str_eqb name "execution_time"%string then Ok (AttrVal (execution_time pv))
  else if str_eqb name "execution_id"%string then Ok (AttrVal (execution_id pv))
  else Raise (AttributeError name).
End Models.

(** ** The storage directory

    A file of the directory [.prompts]: its name, its modification time
    and what [open] and [json.load] make of it.  [JSON v] is a file that
    loads, to the value [v].  [NotJSON] is a text that is not JSON, as a
    file cut short is: [json.load] raises [JSONDecodeError].
    [Unreadable e] is a file on which [open] or [json.load] raises [e]
    for another reason: bytes that are no text in the encoding
    ([UnicodeDecodeError]), an integer of more than [int_max_str_digits]
    digits ([ValueError]), a nesting deeper than the interpreter
    recurses ([RecursionError]).  A directory is the list of its files,
    in the order [glob] yields them. *)

Inductive file_content : Type :=
| NotJSON
| JSON (v : pyval)
| Unreadable (e : exn).

Record file : Type := {
  file_name : str;
  file_mtime : Z;
  file_data : file_content
}.

Definition directory := list file.

Definition endswith (suffix s : str) : bool := startswith (rev suffix) (rev s).

(** [fnmatch(name, "prompts_*.json")] *)
Definition is_timestamped_name (name : str) : bool :=
  startswith "prompts_"%string name && endswith ".json"%string (skipn 8 name).

Definition legacy_name : str := list_ascii_of_string "prompts.json".

Definition lookup_file (name : str) (dir : directory) : option file :=
  find (fun f => str_eqb (file_name f) name) dir.

(** [open(name, 'w')] followed by a write, after which the file holds
    [content]. *)
Definition write_file (name : str) (t : Z) (content : file_content)
    (dir : directory) : directory :=
  let f := {| file_name := name; file_mtime := t; file_data := content |} in
  if existsb (fun g => str_eqb (file_name g) name) dir
  then map (fun g => if str_eqb (file_name g) name then f else g) dir
  else dir ++ [f].

(** [sorted(files, key=lambda x: x.stat().st_mtime, reverse=True)]: the
    newest first, files of equal time in their original order. *)
Fixpoint insert_newest_first (f : file) (l : list file) : list file :=
  match l with
  | [] => [f]
  | g :: rest =>
      if (file_mtime f <? file_mtime g)%Z
      then g :: insert_newest_first f rest
      else f :: l
  end.

Definition list_timestamped_files (dir : directory) : list file :=
  fold_right insert_newest_first []
    (filter (fun f => is_timestamped_name (file_name f)) dir).

(** ** [core/storage.py] *)

(** [max(items, key=key)] where [gt] is [>] on keys: the first item whose
    key no later key exceeds.  The key of each item is computed once, in
    order. *)
Fixpoint max_from {A K : Type} (key : A -> result K) (gt : K -> K -> result bool)
    (best : A) (best_key : K) (items : list A) : result A :=
  match items with
  | [] => Ok best
  | x :: rest =>
      k <- key x ;;
      b <- gt k best_key ;;
      if b : bool then max_from key gt x k rest
      else max_from key gt best best_key rest
  end.

Definition py_max {A K : Type} (key : A -> result K) (gt : K -> K -> result bool)
    (items : list A) : result A :=
  match items with
  | [] => Raise ValueError
  | x :: rest => k <- key x ;; max_from key gt x k rest
  end.

(** [>] on the triples [parse_version_parts] returns. *)
Definition tuple_gt (a b : Z * Z * Z) : result bool :=
  let '(a1, a2, a3) := a in
  let '(b1, b2, b3) := b in
  Ok (if (a1 =? b1)%Z
      then if (a2 =? b2)%Z then (b3 <? a3)%Z else (b2 <? a2)%Z
      else (b1 <? a1)%Z).

Section Storage.
Context {R : Runtime} {U : Unicode}.

(** The built-ins the storage and the wrapper apply to attribute values:
    [str(x)] of an f-string field, [a > b], and [str(e)]. *)
Variable py_str : attr -> str.
Variable py_gt : attr -> attr -> result bool.
Variable exn_str : exn -> str.

Record PromptStorage : Type := {
  source_filename : str;
  prompts : list (str * PromptVersion)
}.

(** [for k, v in data.items(): self.prompts[k] = PromptVersion.from_dict(v)]
    The entries set before a failing one stay in the index. *)
Fixpoint load_items (index : list (str * PromptVersion))
    (items : list (str * pyval)) (now : datetime)
  : list (str * PromptVersion) * option exn :=
  match items with
  | [] => (index, None)
  | (k, v) :: rest =>
      match from_dict v now with
      | Ok pv => load_items (dict_set k pv index) rest now
      | Raise e => (index, Some e)
      end
  end.

(** The body of a [try] of [_load_prompts]: [json.load], then the loop.
    Only a dictionary has [items]. *)
Definition load_file (index : list (str * PromptVersion)) (f : file)
    (now : datetime) : list (str * PromptVersion) * option exn :=
  match file_data f with
  | NotJSON => (index, Some JSONDecodeError)
  | Unreadable e => (index, Some e)
  | JSON (VDict items) => load_items index items now
  | JSON _ => (index, Some (AttributeError "items"%string))
  end.

(** [except (json.JSONDecodeError, KeyError)] *)
Definition caught (e : exn) : bool :=
  match e with
  | JSONDecodeError | KeyError _ => true
  | _ => false
  end.

(** The second half of [_load_prompts], the legacy file. *)
Definition load_legacy (index : list (str * PromptVersion)) (dir : directory)
    (now : datetime) : result (list (str * PromptVersion)) :=
  match lookup_file legacy_name dir with
  | None => Ok index
  | Some f =>
      match load_file index f now with
      | (index', None) => Ok index'
      | (_, Some e) => if caught e then Ok [] else Raise e
      end
  end.

Definition _load_prompts (dir : directory) (now : datetime)
  : result (list (str * PromptVersion)) :=
  match list_timestamped_files dir with
  | latest_file :: _ =>
      match load_file [] latest_file now with
      | (index, None) => Ok index
      | (index, Some e) =>
          if caught e then load_legacy index dir now else Raise e
      end
  | [] => load_legacy [] dir now
  end.

(** [PromptStorage(source_filename=...)] *)
Definition PromptStorage_init (source : str) (dir : directory) (now : datetime)
  : result PromptStorage :=
  index <- _load_prompts dir now ;;
  Ok {| source_filename := source; prompts := index |}.

(** [_save_prompts]: what the call gives and the directory afterwards.
    [now] is the clock at the write and [t] the modification time the
    files get.  When [json.dump] raises, the snapshot it was writing is
    left cut short, the legacy file is not reached, and the exception
    goes to the caller. *)
Definition _save_prompts (st : PromptStorage) (dir : directory)
    (now : datetime) (t : Z) : result unit * directory :=
  let data := VDict (map (fun kv => (fst kv, to_dict (snd kv))) (prompts st)) in
  let filename :=
    list_ascii_of_string "prompts_" ++ source_filename st ++ "_"%char
      :: strftime_stamp now ++ list_ascii_of_string ".json" in
  match json_dump data with
  | Raise e => (Raise e, write_file filename t NotJSON dir)
  | Ok written =>
      (Ok tt,
       write_file legacy_name t (JSON written)
         (write_file filename t (JSON written) dir))
  end.

(** [add_prompt]: what the call gives, and the store and the directory
    afterwards. *)
Definition add_prompt (st : PromptStorage) (prompt_version : PromptVersion)
    (dir : directory) (now : datetime) (t : Z)
  : result unit * (PromptStorage * directory) :=
  match
    a <- getattr prompt_version "function_name"%string ;;
    b <- getattr prompt_version "project_version"%string ;;
    c <- getattr prompt_version "agent_version"%string ;;
    Ok (py_str a ++ "_"%char :: py_str b ++ "_"%char :: py_str c)
  with
  | Raise e => (Raise e, (st, dir))
  | Ok key =>
      let st' := {| source_filename := source_filename st;
                    prompts := dict_set key prompt_version (prompts st) |} in
      let '(r, dir') := _save_prompts st' dir now t in
      (r, (st', dir'))
  end.

Definition get_prompt_by_combined_version (st : PromptStorage)
    (function_name_ version_ : str) : option PromptVersion :=
  let key := function_name_ ++ "_"%char :: version_ in
  dict_get key (prompts st).

(** [pv.function_name == function_name], the right side being a string. *)
Definition named (function_name_ : str) (pv : PromptVersion) : bool :=
  match function_name pv with
  | VStr s => str_eqb s function_name_
  | _ => false
  end.

Definition get_latest_version (st : PromptStorage) (function_name_ : str)
  : result (option PromptVersion) :=
  let versions := filter (named function_name_) (dict_values (prompts st)) in
  match versions with
  | [] => Ok None
  | _ =>
      best <- py_max (fun x => getattr x "agent_version"%string) py_gt versions ;;
      Ok (Some best)
  end.

(** [self._parse_version(x.project_version)]; only a string has [split]. *)
Definition project_version_key (x : PromptVersion) : result (Z * Z * Z) :=
  a <- getattr x "project_version"%string ;;
  match a with
  | AttrVal (VStr s) => parse_version_parts s
  | _ => Raise (AttributeError "split"%string)
  end.

Definition get_latest_project_version (st : PromptStorage) (function_name_ : str)
  : result (option PromptVersion) :=
  let versions := filter (named function_name_) (dict_values (prompts st)) in
  match versions with
  | [] => Ok None
  | _ =>
      best <- py_max project_version_key tuple_gt versions ;;
      Ok (Some best)
  end.

Definition list_prompts (st : PromptStorage) (function_name_ : option str)
  : list PromptVersion :=
  match function_name_ with
  | Some (c :: n) => filter (named (c :: n)) (dict_values (prompts st))
  | _ => dict_values (prompts st)
  end.

(** ** [decorators/chorus.py]: the tracking wrapper

    What the wrapper obtains from its collaborators at one call. *)
Record call : Type := {
  (** [func.__name__] *)
  func_name : str;
  (** [extract_prompt_from_function(func)] *)
  extracted_prompt : option str;
  (** [bound_args.arguments] *)
  bound_arguments : pyval;
  (** [prompt.format( **bound_args.arguments )] *)
  formatted : result str;
  (** the stem of [inspect.getfile(func)], or ["unknown"] *)
  source_stem : str;
  (** [func( *args, **kwargs )] *)
  outcome : result pyval;
  (** [time.time() - start_time] *)
  elapsed : pyval
}.

(** [bump_version(current_version.version, bump_type)] *)
Definition bump_stored (v : pyval) (bump_type : str) : result pyval :=
  match v with
  | VStr s => r <- bump_version s bump_type ;; Ok (VStr r)
  | _ => Raise (AttributeError "split"%string)
  end.

(** The version the record of this call gets. *)
Definition choose_version (version_ : str) (auto_version : bool)
    (current_version : option PromptVersion) (formatted_prompt : str)
  : result pyval :=
  if str_eqb version_ "auto"%string then
    match current_version with
    | Some cv =>
        bump_stored (version cv)
          (analyze_prompt_changes (prompt cv) formatted_prompt)
    | None => Ok (VStr (list_ascii_of_string "1.0.0"))
    end
  else
    match current_version with
    | Some cv =>
        if auto_version then
          if negb (str_eqb (prompt cv) formatted_prompt)
          then bump_stored (version cv)
                 (analyze_prompt_changes (prompt cv) formatted_prompt)
          else Ok (version cv)
        else Ok (VStr version_)
    | None => Ok (VStr version_)
    end.

(** The wrapper up to the call of the function: the formatted prompt, the
    storage and the version. *)
Definition prepare (version_ : str) (auto_version : bool) (c : call)
    (prompt_ : str) (dir : directory) (now : datetime)
  : result (str * PromptStorage * pyval) :=
  formatted_prompt <-
    match formatted c with
    | Ok s => Ok s
    | Raise (KeyError _) => Ok prompt_
    | Raise e => Raise e
    end ;;
  storage <- PromptStorage_init (source_stem c) dir now ;;
  current_version <- get_latest_version storage (func_name c) ;;
  new_version <- choose_version version_ auto_version current_version formatted_prompt ;;
  Ok (formatted_prompt, storage, new_version).

(** One call of the wrapped function: what the caller gets and the
    directory afterwards. *)
Definition wrapper (version_ : str) (description_ tags_ : pyval)
    (auto_version : bool) (c : call) (dir : directory) (now : datetime) (t : Z)
  : result pyval * directory :=
  match extracted_prompt c with
  | None | Some [] => (outcome c, dir)
  | Some prompt_ =>
      match prepare version_ auto_version c prompt_ dir now with
      | Raise e => (Raise e, dir)
      | Ok (formatted_prompt, storage, new_version) =>
          match outcome c with
          | Raise e =>
              (* output = f"ERROR: {str(e)}" ... raise *)
              let output_ := VStr (list_ascii_of_string "ERROR: " ++ exn_str e) in
              (Raise e, dir)
          | Ok output_ =>
              match
                PromptVersion_init (VStr formatted_prompt) new_version
                  (VStr (func_name c)) description_ (py_or tags_ (VList []))
                  None (bound_arguments c) output_ (elapsed c) VNone now
              with
              | Raise e => (Raise e, dir)
              | Ok pv =>
                  let '(r, (_, dir')) := add_prompt storage pv dir now t in
                  (_ <- r ;; Ok output_, dir')
              end
          end
      end
  end.

(** The validation at the head of [chorus], on the code points of the
    version: an empty version is refused, and so is one that is neither
    the word [auto] nor a valid version. *)
Definition check_version (version : ustr) : result unit :=
  match version with
  | [] => Raise ValueError
  | _ =>
      if negb (ustr_eqb version (code_points "auto"%string))
         && negb (is_valid_version version)
      then Raise ValueError
      else Ok tt
  end.

(** [chorus(version, description, tags, auto_version)]: the version is
    validated before anything is wrapped. *)
Definition chorus (version_ : str) (description_ tags_ : pyval)
    (auto_version : bool)
  : result (call -> directory -> datetime -> Z -> result pyval * directory) :=
  _ <- check_version (code_points version_) ;;
  Ok (wrapper version_ description_ tags_ auto_version).

End Storage.

(** ** A runtime

    An implementation of [Runtime], on which the definitions above run
    on concrete inputs: naive datetimes with the text [isoformat] gives
    them, and MD5 over the UTF-8 encoding of a string. *)

Module Reference.

Definition digit (q : N) : ascii := ascii_of_N (48 + q).

Definition digit_of (c : ascii) : N := code c - 48.

(** [n] in [k] decimal digits, zero-padded. *)
Fixpoint pad (k : nat) (n : N) : str :=
  match k with
  | O => []
  | S k' => digit (n / 10 ^ N.of_nat k') :: pad k' (n mod 10 ^ N.of_nat k')
  end.

(** Reads exactly [k] decimal digits. *)
Fixpoint read (k : nat) (acc : N) (s : str) : option (N * str) :=
  match k with
  | O => Some (acc, s)
  | S k' =>
      match s with
      | c :: t => if isdecimal c then read k' (10 * acc + digit_of c) t else None
      | [] => None
      end
  end.

Definition expect (c : ascii) (s : str) : option str :=
  match s with
  | x :: t => if Ascii.eqb x c then Some t else None
  | [] => None
  end.

Record fields : Type := {
  year : N; month : N; day : N;
  hour : N; minute : N; second : N; microsecond : N
}.

Definition leap (y : N) : bool :=
  (y mod 4 =? 0)%N && (negb (y mod 100 =? 0)%N || (y mod 400 =? 0)%N).

Definition days_in_month (y m : N) : N :=
  if (m =? 2)%N then (if leap y then 29 else 28)
  else if (m =? 4)%N || (m =? 6)%N || (m =? 9)%N || (m =? 11)%N then 30
  else 31.

Definition valid (d : fields) : bool :=
  (1 <=? year d)%N && (year d <=? 9999)%N &&
  (1 <=? month d)%N && (month d <=? 12)%N &&
  (1 <=? day d)%N && (day d <=? days_in_month (year d) (month d))%N &&
  (hour d <? 24)%N && (minute d <? 60)%N && (second d <? 60)%N &&
  (microsecond d <? 1000000)%N.

(** A naive [datetime]: fields within their ranges. *)
Definition naive : Type := { d : fields | valid d = true }.

Definition make (d : fields) : option naive :=
  match bool_dec (valid d) true with
  | left H => Some (exist _ d H)
  | right _ => None
  end.

Definition naive_isoformat (x : naive) : str :=
  let d := proj1_sig x in
  pad 4 (year d) ++ "-"%char :: pad 2 (month d) ++ "-"%char :: pad 2 (day d)
  ++ "T"%char :: pad 2 (hour d) ++ ":"%char :: pad 2 (minute d)
  ++ ":"%char :: pad 2 (second d)
  ++ (if (microsecond d =? 0)%N then [] else "."%char :: pad 6 (microsecond d)).

Definition obind {A B : Type} (o : option A) (k : A -> option B) : option B :=
  match o with
  | Some a => k a
  | None => None
  end.

(** The fraction of a second: six digits, or three. *)
Definition parse_fraction (s : str) : option N :=
  match read 6 0 s with
  | Some (us, []) => Some us
  | _ =>
      match read 3 0 s with
      | Some (ms, []) => Some (ms * 1000)%N
      | _ => None
      end
  end.

(** [HH[:MM[:SS[.fff[fff]]]]] *)
Definition parse_time (s : str) : option (N * N * N * N) :=
  obind (read 2 0 s) (fun '(h, s1) =>
  match s1 with
  | [] => Some (h, 0, 0, 0)%N
  | _ =>
    obind (expect ":" s1) (fun s2 =>
    obind (read 2 0 s2) (fun '(mi, s3) =>
    match s3 with
    | [] => Some (h, mi, 0, 0)%N
    | _ =>
      obind (expect ":" s3) (fun s4 =>
      obind (read 2 0 s4) (fun '(sec, s5) =>
      match s5 with
      | [] => Some (h, mi, sec, 0%N)
      | _ =>
        obind (expect "." s5) (fun s6 =>
        obind (parse_fraction s6) (fun us => Some (h, mi, sec, us)))
      end))
    end))
  end).

(** [YYYY-MM-DD[*HH[:MM[:SS[.fff[fff]]]]]], the format of a naive
    datetime, any one character between date and time. *)
Definition naive_fromisoformat (s : str) : option naive :=
  obind (read 4 0 s) (fun '(y, s1) =>
  obind (expect "-" s1) (fun s2 =>
  obind (read 2 0 s2) (fun '(m, s3) =>
  obind (expect "-" s3) (fun s4 =>
  obind (read 2 0 s4) (fun '(d, s5) =>
  match s5 with
  | [] => make {| year := y; month := m; day := d;
                  hour := 0; minute := 0; second := 0; microsecond := 0 |}
  | _ :: s6 =>
      obind (parse_time s6) (fun '(h, mi, sec, us) =>
      make {| year := y; month := m; day := d;
              hour := h; minute := mi; second := sec; microsecond := us |})
  end))))).

(** [%Y%m%d_%H%M%S]; the C library prints the year unpadded. *)
Definition naive_strftime_stamp (x : naive) : str :=
  let d := proj1_sig x in
  list_ascii_of_string (NilEmpty.string_of_uint (N.to_uint (year d)))
  ++ pad 2 (month d) ++ pad 2 (day d)
  ++ "_"%char :: pad 2 (hour d) ++ pad 2 (minute d) ++ pad 2 (second d).

(** *** MD5 (RFC 1321) *)

Definition w32 (x : N) : N := (x mod 4294967296)%N.

Definition rotl (x c : N) : N :=
  w32 (N.lor (N.shiftl x c) (N.shiftr x (32 - c))).

Definition not32 (x : N) : N := N.lxor x 4294967295.

Definition md5_K : list N :=
  [3614090360; 3905402710; 606105819; 3250441966;
   4118548399; 1200080426; 2821735955; 4249261313;
   1770035416; 2336552879; 4294925233; 2304563134;
   1804603682; 4254626195; 2792965006; 1236535329;
   4129170786; 3225465664; 643717713; 3921069994;
   3593408605; 38016083; 3634488961; 3889429448;
   568446438; 3275163606; 4107603335; 1163531501;
   2850285829; 4243563512; 1735328473; 2368359562;
   4294588738; 2272392833; 1839030562; 4259657740;
   2763975236; 1272893353; 4139469664; 3200236656;
   681279174; 3936430074; 3572445317; 76029189;
   3654602809; 3873151461; 530742520; 3299628645;
   4096336452; 1126891415; 2878612391; 4237533241;
   1700485571; 2399980690; 4293915773; 2240044497;
   1873313359; 4264355552; 2734768916; 1309151649;
   4149444226; 3174756917; 718787259; 3951481745]%N.

Definition md5_S : list N :=
  [7; 12; 17; 22; 7; 12; 17; 22; 7; 12; 17; 22; 7; 12; 17; 22;
   5; 9; 14; 20; 5; 9; 14; 20; 5; 9; 14; 20; 5; 9; 14; 20;
   4; 11; 16; 23; 4; 11; 16; 23; 4; 11; 16; 23; 4; 11; 16; 23;
   6; 10; 15; 21; 6; 10; 15; 21; 6; 10; 15; 21; 6; 10; 15; 21]%N.

Definition md5_state : Type := (N * N * N * N)%type.

Definition md5_step (M : list N) (st : md5_state) (i : nat) : md5_state :=
  let '(A, B, C, D) := st in
  let '(F, g) :=
    if (i <? 16)%nat then (N.lor (N.land B C) (N.land (not32 B) D), i)
    else if (i <? 32)%nat
    then (N.lor (N.land D B) (N.land (not32 D) C), ((5 * i + 1) mod 16)%nat)
    else if (i <? 48)%nat
    then (N.lxor B (N.lxor C D), ((3 * i + 5) mod 16)%nat)
    else (N.lxor C (N.lor B (not32 D)), ((7 * i) mod 16)%nat) in
  let F' := w32 (F + A + nth i md5_K 0 + nth g M 0)%N in
  (D, w32 (B + rotl F' (nth i md5_S 0%N)), B, C).

Definition md5_block (h : md5_state) (M : list N) : md5_state :=
  let '(a0, b0, c0, d0) := h in
  let '(A, B, C, D) := fold_left (md5_step M) (seq 0 64) h in
  (w32 (a0 + A), w32 (b0 + B), w32 (c0 + C), w32 (d0 + D)).

(** Little-endian bytes of [x], [k] of them. *)
Fixpoint le_bytes (k : nat) (x : N) : list N :=
  match k with
  | O => []
  | S k' => (x mod 256)%N :: le_bytes k' (x / 256)
  end.

Fixpoint le_words (n : nat) (bytes : list N) : list N :=
  match n with
  | O => []
  | S n' =>
      match bytes with
      | b0 :: b1 :: b2 :: b3 :: rest =>
          (b0 + 256 * (b1 + 256 * (b2 + 256 * b3)))%N :: le_words n' rest
      | _ => []
      end
  end.

Definition md5_pad (msg : list N) : list N :=
  let n := length msg in
  let zeros := ((64 + 55 - n mod 64) mod 64)%nat in
  msg ++ 128%N :: repeat 0%N zeros ++ le_bytes 8 (N.of_nat n * 8).

Fixpoint md5_blocks (n : nat) (h : md5_state) (bytes : list N) : md5_state :=
  match n with
  | O => h
  | S n' => md5_blocks n' (md5_block h (le_words 16 bytes)) (skipn 64 bytes)
  end.

Definition hex_digit (x : N) : ascii :=
  if (x <? 10)%N then ascii_of_N (48 + x) else ascii_of_N (87 + x).

Definition hex_byte (b : N) : str := [hex_digit (b / 16); hex_digit (b mod 16)].

(** [s.encode()]: UTF-8 of code points below U+0100. *)
Definition utf8 (s : str) : list N :=
  flat_map (fun c =>
              let n := code c in
              if (n <? 128)%N then [n] else [192 + n / 64; 128 + n mod 64]%N) s.

Definition md5 (msg : list N) : str :=
  let bytes := md5_pad msg in
  let '(a, b, c, d) :=
    md5_blocks (length bytes / 64) (1732584193, 4023233417, 2562383102, 271733878)%N
      bytes in
  flat_map hex_byte (le_bytes 4 a ++ le_bytes 4 b ++ le_bytes 4 c ++ le_bytes 4 d).

Definition md5_hex (s : str) : str := md5 (utf8 s).

(** *** The runtime and its law *)

Lemma digit_decimal (q : N) : (q < 10)%N -> isdecimal (digit q) = true.
Proof.
  intros Hq. unfold isdecimal, in_range, code, digit.
  rewrite N_ascii_embedding by lia.
  apply andb_true_iff. split; apply N.leb_le; lia.
Qed.

Lemma digit_of_digit (q : N) : (q < 10)%N -> digit_of (digit q) = q.
Proof.
  intros Hq. unfold digit_of, code, digit.
  rewrite N_ascii_embedding by lia. lia.
Qed.

Lemma read_pad (k : nat) (n acc : N) (rest : str) :
  (n < 10 ^ N.of_nat k)%N ->
  read k acc (pad k n ++ rest) = Some ((acc * 10 ^ N.of_nat k + n)%N, rest).
Proof.
  revert n acc. induction k as [|k IH]; intros n acc Hn.
  - simpl in *. f_equal. f_equal. lia.
  - rewrite Nat2N.inj_succ, N.pow_succ_r' in Hn.
    assert (Hp : (0 < 10 ^ N.of_nat k)%N) by (apply N.neq_0_lt_0, N.pow_nonzero; lia).
    assert (Hq : (n / 10 ^ N.of_nat k < 10)%N)
      by (apply N.Div0.div_lt_upper_bound; lia).
    cbn [pad app read].
    rewrite digit_decimal, digit_of_digit by exact Hq.
    rewrite IH by (apply N.mod_lt; lia).
    f_equal. f_equal.
    rewrite Nat2N.inj_succ, N.pow_succ_r'.
    pose proof (N.div_mod n (10 ^ N.of_nat k) ltac:(lia)) as Hdm.
    clear Hn Hq.
    set (P := (10 ^ N.of_nat k)%N) in *.
    set (q := (n / P)%N) in *. set (r := (n mod P)%N) in *.
    clearbody q r. subst n. ring.
Qed.

Lemma read_pad_end (k : nat) (n : N) :
  (n < 10 ^ N.of_nat k)%N -> read k 0 (pad k n) = Some (n, []).
Proof.
  intros Hn. rewrite <- (app_nil_r (pad k n)). now rewrite read_pad.
Qed.

Lemma make_valid (d : fields) (H : valid d = true) : make d = Some (exist _ d H).
Proof.
  unfold make. destruct (bool_dec (valid d) true) as [H'|Hn]; [|contradiction].
  f_equal. f_equal. apply Eqdep_dec.UIP_dec, bool_dec.
Qed.

Lemma naive_roundtrip (x : naive) : naive_fromisoformat (naive_isoformat x) = Some x.
Proof.
  destruct x as [[y m d h mi s us] H].
  pose proof H as Hv. unfold valid in Hv. simpl in Hv.
  repeat (apply andb_true_iff in Hv; destruct Hv as [Hv ?]).
  repeat match goal with
         | E : (_ <=? _)%N = true |- _ => apply N.leb_le in E
         | E : (_ <? _)%N = true |- _ => apply N.ltb_lt in E
         end.
  assert (Hd : (d < 100)%N).
  { assert (days_in_month y m <= 31)%N; [|lia].
    unfold days_in_month.
    repeat match goal with |- context [if ?b then _ else _] => destruct b end; lia. }
  unfold naive_fromisoformat, naive_isoformat. simpl proj1_sig. cbv beta.
  cbn [year month day hour minute second microsecond].
  rewrite read_pad by (simpl; lia). cbn [obind expect]. rewrite Ascii.eqb_refl.
  cbn [obind]. rewrite read_pad by (simpl; lia). cbn [obind expect].
  rewrite Ascii.eqb_refl. cbn [obind]. rewrite read_pad by (simpl; lia).
  cbn [obind app]. unfold parse_time.
  rewrite read_pad by (simpl; lia). cbn [obind expect]. rewrite Ascii.eqb_refl.
  cbn [obind]. rewrite read_pad by (simpl; lia). cbn [obind expect].
  rewrite Ascii.eqb_refl. cbn [obind]. rewrite read_pad by (simpl; lia).
  cbn [obind]. rewrite !N.mul_0_l, !N.add_0_l.
  destruct (us =? 0)%N eqn:Hus.
  - apply N.eqb_eq in Hus. subst us. cbn [obind]. apply make_valid.
  - cbn [obind expect]. rewrite Ascii.eqb_refl. cbn [obind].
    unfold parse_fraction. rewrite read_pad_end by (simpl; lia).
    cbn [obind]. apply make_valid.
Qed.

(** A [json.dump] for the values of the model: every value is written
    and read back as it is, unless it holds an integer of more than
    [int_max_str_digits] digits, whose text [json.dump] cannot make. *)
Fixpoint writable (v : pyval) : bool :=
  match v with
  | VInt n => negb (int_max_str_digits <? len (int_text (Z.abs n)))%Z
  | VList l => forallb writable l
  | VDict items => forallb (fun kv => writable (snd kv)) items
  | _ => true
  end.

Definition dump (v : pyval) : result pyval :=
  if writable v then Ok v else Raise ValueError.

Definition runtime : Runtime :=
  {| datetime := naive;
     isoformat := naive_isoformat;
     fromisoformat := naive_fromisoformat;
     strftime_stamp := naive_strftime_stamp;
     md5_hexdigest := md5_hex;
     json_dump := dump;
     fromisoformat_isoformat := naive_roundtrip |}.

(** *** A Unicode database

    The decimal digits of Unicode 14.0, the version Python 3.11 carries:
    the first and the last code point of each run. *)
Definition decimal_runs : list (N * N) :=
  [(48, 57); (1632, 1641); (1776, 1785); (1984, 1993); (2406, 2415);
   (2534, 2543); (2662, 2671); (2790, 2799); (2918, 2927); (3046, 3055);
   (3174, 3183); (3302, 3311); (3430, 3439); (3558, 3567); (3664, 3673);
   (3792, 3801); (3872, 3881); (4160, 4169); (4240, 4249); (6112, 6121);
   (6160, 6169); (6470, 6479); (6608, 6617); (6784, 6793); (6800, 6809);
   (6992, 7001); (7088, 7097); (7232, 7241); (7248, 7257); (42528, 42537);
   (43216, 43225); (43264, 43273); (43472, 43481); (43504, 43513);
   (43600, 43609); (44016, 44025); (65296, 65305); (66720, 66729);
   (68912, 68921); (69734, 69743); (69872, 69881); (69942, 69951);
   (70096, 70105); (70384, 70393); (70736, 70745); (70864, 70873);
   (71248, 71257); (71360, 71369); (71472, 71481); (71904, 71913);
   (72016, 72025); (72784, 72793); (73040, 73049); (73120, 73129);
   (92768, 92777); (92864, 92873); (93008, 93017); (120782, 120831);
   (123200, 123209); (123632, 123641); (125264, 125273);
   (130032, 130041)]%N.

Definition in_runs (runs : list (N * N)) (c : N) : bool :=
  existsb (fun r => between (fst r) (snd r) c) runs.

Lemma in_runs_above (runs : list (N * N)) (c : N) :
  forallb (fun r => (c <? fst r)%N) runs = true -> in_runs runs c = false.
Proof.
  unfold in_runs. induction runs as [|r runs IH]; simpl; [reflexivity|].
  intros H. apply andb_true_iff in H as [Hr H]. rewrite (IH H).
  apply N.ltb_lt in Hr. unfold between.
  replace (fst r <=? c)%N with false by (symmetry; apply N.leb_gt; exact Hr).
  reflexivity.
Qed.

Lemma decimal_runs_ascii (c : N) :
  (c < 128)%N -> in_runs decimal_runs c = between 48 57 c.
Proof.
  intros Hc. unfold decimal_runs.
  change (in_runs ((48, 57)%N :: ?l) c) with (between 48 57 c || in_runs l c).
  match goal with
  | |- context [in_runs ?l c] =>
      rewrite (in_runs_above l c); [apply orb_false_r|]
  end.
  apply forallb_forall. intros r Hr. apply N.ltb_lt.
  assert (H : forallb (fun r => (128 <=? fst r)%N)
                (tl decimal_runs) = true) by (vm_compute; reflexivity).
  rewrite forallb_forall in H. specialize (H r Hr). apply N.leb_le in H. lia.
Qed.

Definition unicode : Unicode :=
  {| decimal_digit := in_runs decimal_runs;
     decimal_digit_ascii := decimal_runs_ascii |}.

(** Midnight of 2024-01-02, a reading of the clock. *)
Definition a_time : naive :=
  exist _ {| year := 2024; month := 1; day := 2;
             hour := 0; minute := 0; second := 0; microsecond := 0 |} eq_refl.

End Reference.

(** ** Vocabulary of the statements *)

(** The characters [str.isdigit] accepts and [int] does not read. *)
Definition superscript_digit (c : ascii) : bool :=
  N.eqb (code c) 178 || N.eqb (code c) 179 || N.eqb (code c) 185.

(** The least integer [str] refuses: ten to the power
    [int_max_str_digits]. *)
Definition int_text_limit : Z := 10 ^ int_max_str_digits.

(** A numeral [int] reads: a run of decimal digits, not empty and not
    longer than [int_max_str_digits]. *)
Definition numeral (s : str) : bool :=
  negb (str_eqb s []) && forallb isdecimal s && (len s <=? int_max_str_digits)%Z.

(** The number a bump of the given kind increments. *)
Definition bumped_part (kind : str) (t : Z * Z * Z) : Z :=
  let '(major, minor, patch) := t in
  if str_eqb kind "major"%string then major
  else if str_eqb kind "minor"%string then minor
  else patch.

(** A version whose one number is 4300 nines. *)
Definition nines : str := repeat "9"%char 4300.

(** [' '.join(words)] *)
Fixpoint join_space (words : list str) : str :=
  match words with
  | [] => []
  | w :: rest =>
      match rest with
      | [] => w
      | _ => w ++ " "%char :: join_space rest
      end
  end.

(** The text the specification appends to a prompt in its example of a
    minor change. *)
Definition retries_suffix : str :=
  list_ascii_of_string " Also supports new optional retries.".

(** A prompt of more than 120 characters that has the words "also",
    "new" and "option" already. *)
Definition keyworded_prompt : str :=
  list_ascii_of_string
    ("Summarize the following text with also new option for the following text. "
     ++ "Summarize the following text in three short sentences. "
     ++ "Be concise when you summarize the text.").



(** The call [c], with a function that raises [e]. *)
Definition raising (c : call) (e : exn) : call :=
  {| func_name := func_name c;
     extracted_prompt := extracted_prompt c;
     bound_arguments := bound_arguments c;
     formatted := formatted c;
     source_stem := source_stem c;
     outcome := Raise e;
     elapsed := elapsed c |}.

(** A call of [greet(name="Ann")], documented "Hello {name}", in
    [app.py], whose body raises [Exception("boom")]. *)
Definition failing_call : call :=
  {| func_name := list_ascii_of_string "greet";
     extracted_prompt := Some (list_ascii_of_string "Hello {name}");
     bound_arguments :=
       VDict [(list_ascii_of_string "name", VStr (list_ascii_of_string "Ann"))];
     formatted := Ok (list_ascii_of_string "Hello Ann");
     source_stem := list_ascii_of_string "app";
     outcome := Raise (Exception (list_ascii_of_string "boom"));
     elapsed := VFloat (S754_finite false 1 (-10)) |}.

(** The dictionary a snapshot holds for one record of the owner [greet]
    with the given version. *)
Definition greet_record (version_ : string) : pyval :=
  VDict
    [ (list_ascii_of_string "prompt", VStr (list_ascii_of_string "Hello Ann"));
      (list_ascii_of_string "version", VStr (list_ascii_of_string version_));
      (list_ascii_of_string "function_name", VStr (list_ascii_of_string "greet"));
      (list_ascii_of_string "created_at",
       VStr (list_ascii_of_string "2024-01-02T03:04:05")) ].

(** A snapshot with the versions 1.0.0 and 1.1.0 of [greet]. *)
Definition two_versions : pyval :=
  VDict
    [ (list_ascii_of_string "greet_1.0.0", greet_record "1.0.0");
      (list_ascii_of_string "greet_1.1.0", greet_record "1.1.0") ].

Definition two_versions_dir : directory :=
  [ {| file_name := list_ascii_of_string "prompts_app_20240102_030405.json";
       file_mtime := 1704164645;
       file_data := JSON two_versions |} ].





(** ** More of [core/storage.py] *)

Section StorageMore.
Context {R : Runtime}.


(** The records the constructor makes. *)
Definition constructed (pv : PromptVersion) : Prop :=
  exists (p v fn d t : pyval) (c : option datetime) (i o et eid : pyval)
         (now : datetime),
    PromptVersion_init p v fn d t c i o et eid now = Ok pv.

(** An index as a Python dictionary of constructed records. *)
Definition index_ok (index : list (str * PromptVersion)) : Prop :=
  NoDup (map fst index) /\ forall k pv, In (k, pv) index -> constructed pv.


End StorageMore.

(** The four keys [from_dict] subscripts. *)
Definition required_keys : list str :=
  map list_ascii_of_string ["prompt"; "version"; "function_name"; "created_at"]%string.

(** Newest first. *)
Definition newer_or_equal (f g : file) : Prop := (file_mtime g <= file_mtime f)%Z.

(** A newest snapshot whose second entry lacks every required key, and
    no legacy file. *)
Definition half_snapshot : directory :=
  [ {| file_name := list_ascii_of_string "prompts_app_20240102_030405.json";
       file_mtime := 1704164645;
       file_data :=
         JSON (VDict [ (list_ascii_of_string "greet_1.0.0", greet_record "1.0.0");
                       (list_ascii_of_string "greet_1.1.0", VDict []) ]) |} ].

(** ** [core/storage.py]: the project versions *)

Definition project_version_name : str := list_ascii_of_string "project_version.json".

(** [_load_project_versions]: what the file holds, or an empty dictionary
    when it is missing or not JSON; another failure of the read is not
    handled. *)
Definition _load_project_versions (dir : directory) : result pyval :=
  match lookup_file project_version_name dir with
  | Some f =>
      match file_data f with
      | JSON v => Ok v
      | NotJSON | Unreadable JSONDecodeError => Ok (VDict [])
      | Unreadable e => Raise e
      end
  | None => Ok (VDict [])
  end.


Section ProjectVersions.
Context {R : Runtime}.


End ProjectVersions.

(** [list_all_project_versions] *)
Definition list_all_project_versions (dir : directory) : result pyval :=
  _load_project_versions dir.


(** * [chorus/core.py]: the class [MyClass] *)

Module Core.

Record MyClass : Type := {
  name : str;
  value : pyval;
  _data : list (str * pyval)
}.

(** [__init__]: the data starts empty. *)
Definition MyClass_init (name_ : str) (value_ : pyval) : MyClass :=
  {| name := name_; value := value_; _data := [] |}.

(** [add_data]: [self._data[key] = value] *)
Definition add_data (self : MyClass) (key : str) (value_ : pyval) : MyClass :=
  {| name := name self; value := value self;
     _data := dict_set key value_ (_data self) |}.

(** [get_data]: [self._data.get(key)] *)
Definition get_data (self : MyClass) (key : str) : pyval :=
  match dict_get key (_data self) with
  | Some v => v
  | None => VNone
  end.

(** [list_keys]: [list(self._data.keys())] *)
Definition list_keys (self : MyClass) : list str := map fst (_data self).

End Core.
(** * Properties *)

Example parse_ex1 : parse_version_parts "2.x.3"%string = Ok (2, 0, 3)%Z.
Proof. vm_compute. reflexivity. Qed.

Example parse_ex2 : parse_version_parts "1.0.0-alpha+001"%string = Ok (1, 0, 0)%Z.
Proof. vm_compute. reflexivity. Qed.

(** ** Strings *)

Lemma str_eqb_refl (s : str) : str_eqb s s = true.
Proof. induction s as [|c s IH]; simpl; [reflexivity|]. now rewrite Ascii.eqb_refl. Qed.

Lemma str_eqb_eq (a b : str) : str_eqb a b = true <-> a = b.
Proof.
  split; [|intros ->; apply str_eqb_refl].
  revert b. induction a as [|x a IH]; destruct b as [|y b]; simpl;
    try discriminate; [reflexivity|].
  intros H. apply andb_true_iff in H as [Hc Hs].
  apply Ascii.eqb_eq in Hc. apply IH in Hs. congruence.
Qed.

Lemma str_eqb_neq (a b : str) : a <> b -> str_eqb a b = false.
Proof.
  intros Hn. destruct (str_eqb a b) eqn:E; [|reflexivity].
  apply str_eqb_eq in E. contradiction.
Qed.

Lemma str_eqb_nil (s : str) : str_eqb s [] = true <-> s = [].
Proof. apply str_eqb_eq. Qed.

Ltac by_ascii_cases c :=
  destruct c as [[|] [|] [|] [|] [|] [|] [|] [|]];
  vm_compute; intuition congruence.

Lemma len_nonneg {A : Type} (l : list A) : (0 <= len l)%Z.
Proof. unfold len. lia. Qed.

Lemma len_cons {A : Type} (x : A) (l : list A) : len (x :: l) = (len l + 1)%Z.
Proof. unfold len. simpl length. lia. Qed.

(** ** Splitting *)

Lemma split_on_not_nil (sep : ascii) (s : str) : split_on sep s <> [].
Proof.
  destruct s as [|c t]; simpl; [discriminate|].
  destruct (Ascii.eqb c sep); [discriminate|].
  destruct (split_on sep t); discriminate.
Qed.

Lemma split_on_chars (sep : ascii) (s p : str) (c : ascii) :
  In p (split_on sep s) -> In c p -> In c s.
Proof.
  revert p. induction s as [|a t IH]; simpl; intros p Hp Hc.
  - destruct Hp as [<-|[]]. destruct Hc.
  - destruct (Ascii.eqb a sep).
    + destruct Hp as [<-|Hp]; [destruct Hc|]. right. eapply IH; eauto.
    + destruct (split_on sep t) as [|q qs] eqn:E.
      * destruct Hp as [<-|[]]. destruct Hc as [<-|[]]. now left.
      * destruct Hp as [<-|Hp].
        -- destruct Hc as [<-|Hc]; [now left|]. right. apply (IH q); simpl; auto.
        -- right. apply (IH p); simpl; auto.
Qed.

Lemma split_on_len (sep : ascii) (s p : str) :
  In p (split_on sep s) -> (len p <= len s)%Z.
Proof.
  revert p. induction s as [|a t IH]; simpl; intros p Hp.
  - destruct Hp as [<-|[]]. lia.
  - rewrite len_cons. destruct (Ascii.eqb a sep).
    + destruct Hp as [<-|Hp]; [pose proof (len_nonneg t); unfold len at 1; simpl; lia|].
      specialize (IH p Hp). lia.
    + destruct (split_on sep t) as [|q qs] eqn:E.
      * destruct Hp as [<-|[]]. pose proof (len_nonneg t). unfold len at 1. simpl. lia.
      * destruct Hp as [<-|Hp].
        -- rewrite len_cons. specialize (IH q (or_introl eq_refl)). lia.
        -- specialize (IH p (or_intror Hp)). lia.
Qed.

Lemma first_in (l : list str) : l <> [] -> In (first l) l.
Proof. destruct l; [congruence|]. intros _. now left. Qed.

Lemma first_split_on_app (sep : ascii) (a b : str) :
  ~ In sep a -> first (split_on sep (a ++ b)) = a ++ first (split_on sep b).
Proof.
  induction a as [|x a IH]; intros Hn; [reflexivity|].
  simpl. destruct (Ascii.eqb x sep) eqn:E.
  - apply Ascii.eqb_eq in E. subst. exfalso. apply Hn. now left.
  - assert (Ha : ~ In sep a) by (intros H; apply Hn; now right).
    specialize (IH Ha). unfold first in *.
    pose proof (split_on_not_nil sep (a ++ b)) as Hne.
    destruct (split_on sep (a ++ b)) as [|p ps]; [congruence|].
    simpl in *. now rewrite IH.
Qed.

Lemma first_split_on_sep (sep : ascii) (b : str) :
  first (split_on sep (sep :: b)) = [].
Proof. simpl. now rewrite Ascii.eqb_refl. Qed.

Lemma first_split_on_whole (sep : ascii) (a : str) :
  ~ In sep a -> first (split_on sep a) = a.
Proof.
  intros Hn. rewrite <- (List.app_nil_r a) at 1.
  rewrite first_split_on_app by assumption. simpl. apply List.app_nil_r.
Qed.

Lemma first_split_on_no_sep (sep : ascii) (s : str) :
  ~ In sep (first (split_on sep s)).
Proof.
  induction s as [|c s IH]; simpl; [intros []|].
  destruct (Ascii.eqb c sep) eqn:E; [intros []|].
  pose proof (split_on_not_nil sep s) as Hne.
  unfold first in *. destruct (split_on sep s) as [|p ps]; [congruence|].
  simpl in *. intros [->|H]; [now rewrite Ascii.eqb_refl in E|contradiction].
Qed.

Lemma split_on_app (sep : ascii) (a b : str) :
  ~ In sep a -> split_on sep (a ++ sep :: b) = a :: split_on sep b.
Proof.
  induction a as [|x a IH]; intros Hn; simpl.
  - now rewrite Ascii.eqb_refl.
  - destruct (Ascii.eqb x sep) eqn:E.
    + apply Ascii.eqb_eq in E. subst. exfalso. apply Hn. now left.
    + rewrite IH; [reflexivity|]. intros H. apply Hn. now right.
Qed.

Lemma split_on_whole (sep : ascii) (a : str) :
  ~ In sep a -> split_on sep a = [a].
Proof.
  induction a as [|x a IH]; intros Hn; simpl; [reflexivity|].
  destruct (Ascii.eqb x sep) eqn:E.
  - apply Ascii.eqb_eq in E. subst. exfalso. apply Hn. now left.
  - rewrite IH; [reflexivity|]. intros H. apply Hn. now right.
Qed.

(** ** Numerals *)

Lemma decimal_digit_val (c : ascii) :
  isdecimal c = true -> (0 <= digit_val c <= 9)%Z.
Proof.
  unfold isdecimal, in_range, digit_val. intros H.
  apply andb_true_iff in H as [Hlo Hhi].
  apply N.leb_le in Hlo, Hhi. lia.
Qed.

Lemma nonzero_digit_val (c : ascii) :
  isdecimal c = true -> Ascii.eqb c "0" = false -> (1 <= digit_val c)%Z.
Proof.
  intros Hd Hz. pose proof (decimal_digit_val c Hd) as Hv.
  destruct (Z.eq_dec (digit_val c) 0) as [E|]; [exfalso|lia].
  unfold digit_val, code in E.
  assert (Hc : N_of_ascii c = 48%N) by lia.
  apply (f_equal ascii_of_N) in Hc. rewrite ascii_N_embedding in Hc.
  subst c. discriminate Hz.
Qed.

Lemma decimal_not_punct (s : str) (c : ascii) :
  forallb isdecimal s = true -> isdecimal c = false -> ~ In c s.
Proof.
  intros Hs Hc Hin. rewrite forallb_forall in Hs.
  specialize (Hs c Hin). congruence.
Qed.

Lemma decimal_not_space (c : ascii) : isdecimal c = true -> isspace c = false.
Proof. by_ascii_cases c. Qed.

Lemma decimal_isdigit (s : str) :
  s <> [] -> forallb isdecimal s = true -> isdigit s = true.
Proof.
  intros Hne Hd. destruct s as [|c t]; [congruence|].
  unfold isdigit. apply forallb_forall. intros x Hx.
  rewrite forallb_forall in Hd. unfold isdigit_char. now rewrite (Hd x Hx).
Qed.

(** The value of a run of digits read after [acc]. *)
Lemma digits_fold_bounds (l : str) (acc : Z) :
  (0 <= acc)%Z -> forallb isdecimal l = true ->
  (acc * 10 ^ len l <= fold_left (fun a x => 10 * a + digit_val x) l acc
   < (acc + 1) * 10 ^ len l)%Z.
Proof.
  revert acc. induction l as [|x l IH]; intros acc Hacc Hl.
  - cbn [fold_left]. change (len (@nil ascii)) with 0%Z. lia.
  - cbn [fold_left]. simpl in Hl. apply andb_true_iff in Hl as [Hx Hl].
    pose proof (decimal_digit_val x Hx) as Hd.
    specialize (IH (10 * acc + digit_val x)%Z ltac:(lia) Hl).
    rewrite len_cons, Z.pow_add_r, Z.pow_1_r by (pose proof (len_nonneg l); lia).
    assert (0 < 10 ^ len l)%Z by (apply Z.pow_pos_nonneg; [lia|apply len_nonneg]).
    nia.
Qed.

Lemma numeral_spec (s : str) :
  numeral s = true <->
  s <> [] /\ forallb isdecimal s = true /\ (len s <= int_max_str_digits)%Z.
Proof.
  unfold numeral. rewrite !andb_true_iff, negb_true_iff, Z.leb_le. split.
  - intros [[Hne Hd] Hl]. repeat split; try assumption.
    intros ->. discriminate Hne.
  - intros (Hne & Hd & Hl). repeat split; try assumption.
    now apply str_eqb_neq.
Qed.

(** [int] reads exactly the numerals, and gives a number below
    [int_text_limit]. *)
Lemma py_int_numeral (s : str) :
  numeral s = true <-> exists n, py_int s = Ok n.
Proof.
  rewrite numeral_spec. unfold py_int. split.
  - intros (Hne & Hd & Hl). destruct s as [|c t]; [congruence|].
    rewrite Hd. destruct (Z.ltb_spec int_max_str_digits (len (c :: t))); [lia|eauto].
  - intros [n H]. destruct s as [|c t]; [discriminate|].
    destruct (forallb isdecimal (c :: t)); [|discriminate].
    destruct (Z.ltb_spec int_max_str_digits (len (c :: t))); [discriminate|].
    repeat split; [discriminate|assumption].
Qed.

Lemma py_int_bound (s : str) (n : Z) :
  py_int s = Ok n -> (0 <= n < int_text_limit)%Z.
Proof.
  unfold py_int. destruct s as [|c t]; [discriminate|].
  destruct (forallb isdecimal (c :: t)) eqn:Hd; [|discriminate].
  destruct (Z.ltb_spec int_max_str_digits (len (c :: t))) as [|Hl]; [discriminate|].
  intros H.
  pose proof (digits_fold_bounds (c :: t) 0%Z ltac:(lia) Hd) as Hb.
  assert (Hn : fold_left (fun a x => (10 * a + digit_val x)%Z) (c :: t) 0%Z = n)
    by congruence.
  rewrite Hn in Hb. clear H Hn.
  assert (10 ^ len (c :: t) <= int_text_limit)%Z
    by (apply Z.pow_le_mono_r; [lia|exact Hl]).
  lia.
Qed.

Lemma py_int_of_decimal (s : str) :
  s <> [] -> forallb isdecimal s = true -> (len s <= int_max_str_digits)%Z ->
  exists n, py_int s = Ok n.
Proof. intros. apply py_int_numeral, numeral_spec. auto. Qed.

Lemma version_part_total (parts : list str) (i : nat) :
  (forall p c, In p parts -> In c p -> superscript_digit c = false) ->
  (forall p, In p parts -> (len p <= int_max_str_digits)%Z) ->
  exists n, version_part parts i = Ok n.
Proof.
  intros Hsup Hlen. unfold version_part.
  destruct (i <? length parts)%nat eqn:Hi; simpl; [|eauto].
  destruct (isdigit (nth i parts [])) eqn:Hd; [|eauto].
  apply Nat.ltb_lt in Hi.
  assert (Hin : In (nth i parts []) parts) by now apply nth_In.
  set (p := nth i parts []) in *.
  apply py_int_of_decimal.
  - destruct p; [discriminate|discriminate].
  - unfold isdigit in Hd. destruct p as [|a q] eqn:Ep; [discriminate|].
    rewrite <- Ep in *. apply forallb_forall. intros c Hc.
    rewrite forallb_forall in Hd. specialize (Hd c Hc).
    specialize (Hsup p c Hin Hc).
    unfold isdigit_char in Hd. unfold superscript_digit in Hsup.
    destruct (isdecimal c); [reflexivity|]. simpl in Hd.
    congruence.
  - now apply Hlen.
Qed.

(** Away from the superscript digits, and on a text of at most
    [int_max_str_digits] characters, the parse is total. *)
Lemma parse_version_parts_total (v : str) :
  forallb (fun c => negb (superscript_digit c)) v = true ->
  (len v <= int_max_str_digits)%Z ->
  exists t, parse_version_parts v = Ok t.
Proof.
  intros Hv Hlen. unfold parse_version_parts.
  set (clean := first (split_on "+" (first (split_on "-" v)))).
  assert (Hclean : forall c, In c clean -> superscript_digit c = false).
  { intros c Hc. rewrite forallb_forall in Hv.
    apply negb_true_iff, Hv.
    eapply split_on_chars; [apply first_in, split_on_not_nil|].
    eapply split_on_chars; [apply first_in, split_on_not_nil|]. exact Hc. }
  assert (Hcl : (len clean <= len v)%Z).
  { transitivity (len (first (split_on "-" v))).
    - apply split_on_len with (sep := "+"%char). apply first_in, split_on_not_nil.
    - apply split_on_len with (sep := "-"%char). apply first_in, split_on_not_nil. }
  assert (Hparts : forall p c, In p (split_on "." clean) -> In c p ->
                               superscript_digit c = false).
  { intros p c Hp Hc. apply Hclean. eapply split_on_chars; eauto. }
  assert (Hplen : forall p, In p (split_on "." clean) ->
                            (len p <= int_max_str_digits)%Z).
  { intros p Hp. apply split_on_len in Hp. lia. }
  destruct (version_part_total _ 0 Hparts Hplen) as [a ->].
  destruct (version_part_total _ 1 Hparts Hplen) as [b ->].
  destruct (version_part_total _ 2 Hparts Hplen) as [c ->].
  simpl. eauto.
Qed.

(** C5.  [parse_version_parts] is not total: [str.isdigit] holds of the
    superscript two, U+00B2, which [int] does not read, so the guarded
    [int(parts[0])] raises [ValueError] on the one-character version
    U+00B2 (and on "1." U+00B2 ".3", where the failing component is the
    second).  The same
    parse on the example of the specification gives [(2, 0, 3)]. *)
Theorem parse_version_parts_superscript :
  parse_version_parts ["178"%char] = Raise ValueError /\
  parse_version_parts ["1"; "."; "178"; "."; "3"]%char = Raise ValueError /\
  parse_version_parts "2.x.3"%string = Ok (2, 0, 3)%Z.
Proof. repeat split; vm_compute; reflexivity. Qed.

Lemma version_part_bound (parts : list str) (i : nat) (n : Z) :
  version_part parts i = Ok n -> (0 <= n < int_text_limit)%Z.
Proof.
  unfold version_part.
  destruct ((i <? length parts)%nat && isdigit (nth i parts [])).
  - apply py_int_bound.
  - intros H. injection H as <-.
    assert (0 < int_text_limit)%Z
      by (apply Z.pow_pos_nonneg; unfold int_max_str_digits; lia).
    lia.
Qed.

Lemma parse_version_parts_bound (v : str) (a b c : Z) :
  parse_version_parts v = Ok (a, b, c) ->
  (0 <= a < int_text_limit)%Z /\ (0 <= b < int_text_limit)%Z /\
  (0 <= c < int_text_limit)%Z.
Proof.
  unfold parse_version_parts.
  set (parts := split_on "." _).
  destruct (version_part parts 0) as [x|] eqn:E0; [|discriminate].
  destruct (version_part parts 1) as [y|] eqn:E1; [|discriminate].
  destruct (version_part parts 2) as [z|] eqn:E2; [|discriminate].
  simpl. intros H. injection H as <- <- <-.
  repeat split; eapply version_part_bound; eauto.
Qed.

(** ** Decimal text of an integer *)

Lemma uint_text_decimal (d : Decimal.uint) :
  forallb isdecimal (list_ascii_of_string (NilEmpty.string_of_uint d)) = true.
Proof. induction d; simpl; try reflexivity; exact IHd. Qed.

Lemma uint_fold_acc (d : Decimal.uint) (acc : positive) :
  fold_left (fun a x => (10 * a + digit_val x)%Z)
    (list_ascii_of_string (NilEmpty.string_of_uint d)) (Z.pos acc)
  = Z.pos (Pos.of_uint_acc d acc).
Proof.
  revert acc. induction d; intros acc; cbn [NilEmpty.string_of_uint
    list_ascii_of_string fold_left Pos.of_uint_acc]; try reflexivity;
    match goal with
    | |- context [digit_val ?c] =>
        let v := eval vm_compute in (digit_val c) in
        change (digit_val c) with v
    end.
  all: match goal with
       | |- fold_left ?f ?l ?z = Z.pos (Pos.of_uint_acc ?d' ?a) =>
           replace z with (Z.pos a) by lia; apply IHd
       end.
Qed.

Lemma uint_fold (d : Decimal.uint) :
  fold_left (fun a x => (10 * a + digit_val x)%Z)
    (list_ascii_of_string (NilEmpty.string_of_uint d)) 0%Z
  = Z.of_N (Pos.of_uint d).
Proof.
  induction d; cbn [NilEmpty.string_of_uint list_ascii_of_string fold_left
                      Pos.of_uint]; try reflexivity;
    match goal with
    | |- context [digit_val ?c] =>
        let v := eval vm_compute in (digit_val c) in
        change (digit_val c) with v
    end;
    change (10 * 0 + 0)%Z with 0%Z; try exact IHd;
    match goal with
    | |- fold_left ?f ?l ?z = Z.of_N (N.pos (Pos.of_uint_acc ?d' ?a)) =>
        replace z with (Z.pos a) by lia; apply uint_fold_acc
    end.
Qed.

Lemma nzhead_not_D0 (d l : Decimal.uint) : Decimal.nzhead d <> Decimal.D0 l.
Proof. induction d; simpl; try discriminate; exact IHd. Qed.

Lemma pos_to_uint_head (p : positive) (l : Decimal.uint) :
  Pos.to_uint p <> Decimal.D0 l.
Proof.
  intros H.
  pose proof (DecimalPos.Unsigned.to_of (Pos.to_uint p)) as Hn.
  rewrite DecimalPos.Unsigned.of_to in Hn. simpl in Hn.
  rewrite H in Hn. rewrite DecimalFacts.unorm_D0 in Hn.
  unfold Decimal.unorm in Hn.
  destruct (Decimal.nzhead l) eqn:E; try discriminate Hn.
  - injection Hn as ->. now apply (DecimalPos.Unsigned.to_uint_nonzero p).
  - now apply nzhead_not_D0 in E.
Qed.

(** The text of a non-negative integer is a run of decimal digits with no
    leading zero, the text of zero apart, and its value is the integer. *)
Lemma int_text_digits (n : Z) :
  (0 <= n)%Z ->
  exists c t,
    int_text n = c :: t /\ forallb isdecimal (c :: t) = true /\
    (Ascii.eqb c "0" = true -> t = []) /\
    fold_left (fun a x => (10 * a + digit_val x)%Z) (c :: t) 0%Z = n.
Proof.
  intros Hn. unfold int_text. destruct n as [|p|p]; [|  |lia].
  { exists "0"%char, []. repeat split; reflexivity. }
  cbn [Z.to_int NilEmpty.string_of_int].
  pose proof (uint_text_decimal (Pos.to_uint p)) as Hd.
  pose proof (uint_fold (Pos.to_uint p)) as Hf.
  rewrite DecimalPos.Unsigned.of_to in Hf.
  pose proof (pos_to_uint_head p) as Hh.
  pose proof (DecimalPos.Unsigned.to_uint_nonnil p) as Hnil.
  destruct (Pos.to_uint p) as [|l|l|l|l|l|l|l|l|l|l] eqn:E;
    try congruence; try (exfalso; now apply (Hh l));
    cbn [NilEmpty.string_of_uint list_ascii_of_string] in *;
    (eexists _, _; split; [reflexivity|]; split; [exact Hd|];
     split; [discriminate|exact Hf]).
Qed.

Lemma int_text_len (n d : Z) :
  (0 <= n)%Z -> (1 <= d)%Z -> (len (int_text n) <= d)%Z <-> (n < 10 ^ d)%Z.
Proof.
  intros Hn Hd. destruct (int_text_digits n Hn) as (c & t & -> & Hall & Hz & Hval).
  pose proof (digits_fold_bounds (c :: t) 0%Z ltac:(lia) Hall) as Hb.
  rewrite Hval in Hb. split.
  - intros Hlen.
    assert (10 ^ len (c :: t) <= 10 ^ d)%Z by (apply Z.pow_le_mono_r; lia).
    lia.
  - intros Hlt.
    destruct (Z.le_gt_cases (len (c :: t)) d) as [|Hgt]; [assumption|exfalso].
    rewrite len_cons in Hgt.
    simpl in Hall. apply andb_true_iff in Hall as [Hc Ht].
    destruct (Ascii.eqb c "0") eqn:Ec.
    + rewrite (Hz eq_refl) in Hgt. change (len (@nil ascii)) with 0%Z in Hgt. lia.
    + pose proof (nonzero_digit_val c Hc Ec) as H1.
      cbn [fold_left] in Hval.
      pose proof (digits_fold_bounds t (10 * 0 + digit_val c)%Z ltac:(lia) Ht) as Hb'.
      rewrite Hval in Hb'.
      assert (10 ^ d <= 10 ^ len t)%Z by (apply Z.pow_le_mono_r; lia).
      assert (0 < 10 ^ len t)%Z by (apply Z.pow_pos_nonneg; [lia|apply len_nonneg]).
      nia.
Qed.

(** [str] gives the text of a non-negative integer below the limit, and
    refuses one at the limit or above. *)
Lemma str_of_int_ok (n : Z) :
  (0 <= n < int_text_limit)%Z -> str_of_int n = Ok (int_text n).
Proof.
  intros [Hn Hl]. unfold str_of_int. rewrite Z.abs_eq by exact Hn.
  destruct (Z.ltb_spec int_max_str_digits (len (int_text n))) as [H|]; [|reflexivity].
  exfalso. apply (int_text_len n int_max_str_digits Hn) in Hl;
    [lia|unfold int_max_str_digits; lia].
Qed.

Lemma str_of_int_limit (n : Z) :
  (int_text_limit <= n)%Z -> str_of_int n = Raise ValueError.
Proof.
  intros Hl. unfold str_of_int.
  assert (Hn : (0 <= n)%Z).
  { assert (0 < int_text_limit)%Z
      by (apply Z.pow_pos_nonneg; unfold int_max_str_digits; lia).
    lia. }
  rewrite Z.abs_eq by exact Hn.
  destruct (Z.ltb_spec int_max_str_digits (len (int_text n))) as [|H]; [reflexivity|].
  exfalso. apply (int_text_len n int_max_str_digits Hn) in H;
    [unfold int_text_limit in Hl; lia|unfold int_max_str_digits; lia].
Qed.

(** [int] reads the text of an integer below the limit back. *)
Lemma py_int_int_text (n : Z) :
  (0 <= n < int_text_limit)%Z -> py_int (int_text n) = Ok n.
Proof.
  intros [Hn Hl]. destruct (int_text_digits n Hn) as (c & t & E & Hall & _ & Hval).
  apply (int_text_len n int_max_str_digits Hn) in Hl;
    [|unfold int_max_str_digits; lia].
  rewrite E in *. unfold py_int. rewrite Hall.
  destruct (Z.ltb_spec int_max_str_digits (len (c :: t))); [lia|].
  now rewrite Hval.
Qed.

(** ** The version codec *)

Lemma core_chars (major minor patch : str) (c : ascii) :
  forallb isdecimal major = true -> forallb isdecimal minor = true ->
  forallb isdecimal patch = true ->
  isdecimal c = false -> Ascii.eqb c "." = false ->
  ~ In c (major ++ "."%char :: minor ++ "."%char :: patch).
Proof.
  intros Hmaj Hmin Hpat Hc Hdot Hin.
  assert (Hne : c <> "."%char) by (intros ->; discriminate).
  apply in_app_or in Hin as [Hin|[Hin|Hin]];
    [now apply (decimal_not_punct _ _ Hmaj Hc)|congruence|].
  apply in_app_or in Hin as [Hin|[Hin|Hin]];
    [now apply (decimal_not_punct _ _ Hmin Hc)|congruence|].
  now apply (decimal_not_punct _ _ Hpat Hc).
Qed.

(** What follows a hyphen or a plus sign is cut off. *)
Lemma clean_version_tail (core tail : str) :
  ~ In "-"%char core -> ~ In "+"%char core ->
  (forall c t, tail = c :: t -> c = "-"%char \/ c = "+"%char) ->
  first (split_on "+" (first (split_on "-" (core ++ tail)))) = core.
Proof.
  intros Hminus Hplus Htail.
  rewrite first_split_on_app by exact Hminus.
  destruct tail as [|c t].
  - simpl. rewrite List.app_nil_r. now apply first_split_on_whole.
  - destruct (Htail c t eq_refl) as [->| ->].
    + rewrite first_split_on_sep, List.app_nil_r. now apply first_split_on_whole.
    + change ("+"%char :: t) with (["+"%char] ++ t).
      rewrite (first_split_on_app "-" ["+"%char])
        by (intros [H|[]]; discriminate).
      cbn [app]. rewrite first_split_on_app by exact Hplus.
      now rewrite first_split_on_sep, List.app_nil_r.
Qed.

(** Three numerals, separated by dots, are what the parse returns,
    whatever a hyphen or a plus sign attaches to them. *)
Lemma parse_core (major minor patch tail : str) (a b c : Z) :
  py_int major = Ok a -> py_int minor = Ok b -> py_int patch = Ok c ->
  (forall x t, tail = x :: t -> x = "-"%char \/ x = "+"%char) ->
  parse_version_parts (major ++ "."%char :: minor ++ "."%char :: patch ++ tail)
  = Ok (a, b, c).
Proof.
  intros Ha Hb Hc Htail.
  destruct (proj1 (numeral_spec major) (proj2 (py_int_numeral major) (ex_intro _ a Ha)))
    as (Nmaj & Dmaj & _).
  destruct (proj1 (numeral_spec minor) (proj2 (py_int_numeral minor) (ex_intro _ b Hb)))
    as (Nmin & Dmin & _).
  destruct (proj1 (numeral_spec patch) (proj2 (py_int_numeral patch) (ex_intro _ c Hc)))
    as (Npat & Dpat & _).
  unfold parse_version_parts.
  replace (major ++ "."%char :: minor ++ "."%char :: patch ++ tail)
    with ((major ++ "."%char :: minor ++ "."%char :: patch) ++ tail)
    by (rewrite <- !List.app_assoc; simpl; rewrite <- !List.app_assoc; reflexivity).
  rewrite clean_version_tail by (try apply core_chars; auto).
  rewrite split_on_app by (apply decimal_not_punct; [exact Dmaj|reflexivity]).
  rewrite split_on_app by (apply decimal_not_punct; [exact Dmin|reflexivity]).
  rewrite split_on_whole by (apply decimal_not_punct; [exact Dpat|reflexivity]).
  unfold version_part. cbn [length nth Nat.ltb Nat.leb andb].
  rewrite (decimal_isdigit _ Nmaj Dmaj), (decimal_isdigit _ Nmin Dmin),
    (decimal_isdigit _ Npat Dpat).
  rewrite Ha, Hb, Hc. reflexivity.
Qed.

(** The text [a.b.c] of three integers below the limit parses to them. *)
Lemma parse_of_numbers (a b c : Z) :
  (0 <= a < int_text_limit)%Z -> (0 <= b < int_text_limit)%Z ->
  (0 <= c < int_text_limit)%Z ->
  parse_version_parts
    (int_text a ++ "."%char :: int_text b ++ "."%char :: int_text c)
  = Ok (a, b, c).
Proof.
  intros Ha Hb Hc.
  rewrite <- (List.app_nil_r (int_text c)).
  apply parse_core; try now apply py_int_int_text.
  intros x t H. discriminate H.
Qed.

Lemma int_text_limit_pos : (2 < int_text_limit)%Z.
Proof.
  unfold int_text_limit.
  apply Z.lt_le_trans with (10 ^ 1)%Z; [reflexivity|].
  apply Z.pow_le_mono_r; unfold int_max_str_digits; lia.
Qed.

(** A bump whose number stays below the limit gives the text of three
    numbers. *)
Lemma bump_version_text (v kind : str) (a b c : Z) :
  parse_version_parts v = Ok (a, b, c) ->
  (bumped_part kind (a, b, c) + 1 < int_text_limit)%Z ->
  exists a' b' c' : Z,
    bump_version v kind
    = Ok (int_text a' ++ "."%char :: int_text b' ++ "."%char :: int_text c') /\
    (0 <= a' < int_text_limit)%Z /\ (0 <= b' < int_text_limit)%Z /\
    (0 <= c' < int_text_limit)%Z /\
    (a', b', c') =
      (if str_eqb kind "major"%string then (a + 1, 0, 0)
       else if str_eqb kind "minor"%string then (a, b + 1, 0)
       else (a, b, c + 1))%Z.
Proof.
  intros Hp Hl. destruct (parse_version_parts_bound _ _ _ _ Hp) as (Ha & Hb & Hc).
  pose proof int_text_limit_pos as Hpos.
  unfold bump_version. rewrite Hp. cbn [bind]. unfold bumped_part in Hl.
  destruct (str_eqb kind "major"%string);
    [exists (a + 1)%Z, 0%Z, 0%Z
    |destruct (str_eqb kind "minor"%string);
     [exists a, (b + 1)%Z, 0%Z|exists a, b, (c + 1)%Z]];
    rewrite ?str_of_int_ok by lia; cbn [bind];
    (split; [reflexivity|]); repeat (split; [lia|]); reflexivity.
Qed.

(** A bump whose number reaches the limit raises. *)
Lemma bump_version_limit (v kind : str) (a b c : Z) :
  parse_version_parts v = Ok (a, b, c) ->
  (int_text_limit <= bumped_part kind (a, b, c) + 1)%Z ->
  bump_version v kind = Raise ValueError.
Proof.
  intros Hp Hl. destruct (parse_version_parts_bound _ _ _ _ Hp) as (Ha & Hb & Hc).
  unfold bump_version. rewrite Hp. cbn [bind]. unfold bumped_part in Hl.
  destruct (str_eqb kind "major"%string);
    [|destruct (str_eqb kind "minor"%string)];
    rewrite ?str_of_int_ok by lia; cbn [bind];
    rewrite str_of_int_limit by lia; reflexivity.
Qed.

Lemma bumped_part_other (kind : str) (t : Z * Z * Z) :
  kind <> list_ascii_of_string "major" -> kind <> list_ascii_of_string "minor" ->
  bumped_part kind t = snd t.
Proof.
  intros Hmaj Hmin. destruct t as [[a b] c]. unfold bumped_part.
  now rewrite (str_eqb_neq _ _ Hmaj), (str_eqb_neq _ _ Hmin).
Qed.

(** C6, as the code has it.  For a version that parses to
    [(major, minor, patch)], a major bump gives [major+1.0.0], a minor
    bump [major.minor+1.0], and any other kind [major.minor.patch+1],
    as long as the number that is incremented stays below
    [int_text_limit]; the result is made of the three numbers only, so
    any pre-release or build part is gone.  When the incremented number
    reaches the limit, the bump raises [ValueError]. *)
Theorem bump_version_spec (v : str) (major minor patch : Z) :
  parse_version_parts v = Ok (major, minor, patch) ->
  ((major + 1 < int_text_limit)%Z ->
   bump_version v "major"%string
   = Ok (int_text (major + 1) ++ ".0.0"%string)) /\
  ((minor + 1 < int_text_limit)%Z ->
   bump_version v "minor"%string
   = Ok (int_text major ++ "."%string ++ int_text (minor + 1) ++ ".0"%string)) /\
  (forall kind : str,
      kind <> list_ascii_of_string "major" ->
      kind <> list_ascii_of_string "minor" ->
      (patch + 1 < int_text_limit)%Z ->
      bump_version v kind
      = Ok (int_text major ++ "."%string ++ int_text minor ++ "."%string
              ++ int_text (patch + 1))) /\
  (forall kind : str,
      (int_text_limit <= bumped_part kind (major, minor, patch) + 1)%Z ->
      bump_version v kind = Raise ValueError) /\
  bump_version "1.2.3"%string "major"%string = Ok (list_ascii_of_string "2.0.0") /\
  bump_version "1.2.3"%string "minor"%string = Ok (list_ascii_of_string "1.3.0") /\
  bump_version "1.2.3"%string "patch"%string = Ok (list_ascii_of_string "1.2.4") /\
  bump_version "1.2.3"%string "junk"%string = Ok (list_ascii_of_string "1.2.4") /\
  bump_version "1.2.3-rc.1+build.5"%string "minor"%string
    = Ok (list_ascii_of_string "1.3.0").
Proof.
  intros Hp.
  assert (G : forall kind,
             (bumped_part kind (major, minor, patch) + 1 < int_text_limit)%Z ->
             bump_version v kind
             = Ok (if str_eqb kind "major"%string
                   then int_text (major + 1) ++ ".0.0"%string
                   else if str_eqb kind "minor"%string
                   then int_text major ++ "."%string ++ int_text (minor + 1)
                          ++ ".0"%string
                   else int_text major ++ "."%string ++ int_text minor
                          ++ "."%string ++ int_text (patch + 1))).
  { intros kind Hl.
    destruct (bump_version_text v kind _ _ _ Hp Hl)
      as (a' & b' & c' & -> & _ & _ & _ & E).
    destruct (str_eqb kind "major"%string);
      [|destruct (str_eqb kind "minor"%string)];
      injection E as -> -> ->; reflexivity. }
  split; [intros Hl; now rewrite G|].
  split; [intros Hl; now rewrite G|].
  split.
  { intros kind Hmaj Hmin Hl.
    rewrite G by (rewrite bumped_part_other by assumption; exact Hl).
    now rewrite (str_eqb_neq _ _ Hmaj), (str_eqb_neq _ _ Hmin). }
  split; [intros kind Hl; now apply (bump_version_limit v kind _ _ _ Hp)|].
  repeat split; vm_compute; reflexivity.
Qed.

Lemma bump_version_spec_witness :
  parse_version_parts "4.5.6-beta"%string = Ok (4, 5, 6)%Z /\
  (4 + 1 < int_text_limit)%Z /\
  bump_version "4.5.6-beta"%string "major"%string = Ok (list_ascii_of_string "5.0.0").
Proof.
  assert (Hp : parse_version_parts "4.5.6-beta"%string = Ok (4, 5, 6)%Z)
    by (vm_compute; reflexivity).
  assert (Hl : (4 + 1 < int_text_limit)%Z) by (vm_compute; reflexivity).
  split; [exact Hp|]. split; [exact Hl|].
  exact (proj1 (bump_version_spec (list_ascii_of_string "4.5.6-beta") 4 5 6 Hp) Hl).
Defined.

(** C6 as stated fails: the version of 4300 nines parses, to the number
    just below the limit, and its major bump, whose number has 4301
    digits, raises [ValueError] where the claim has the text of that
    number. *)
Lemma bump_version_refuses_nines :
  parse_version_parts nines = Ok (int_text_limit - 1, 0, 0)%Z /\
  bump_version nines "major"%string = Raise ValueError.
Proof.
  assert (Hp : parse_version_parts nines = Ok (int_text_limit - 1, 0, 0)%Z)
    by (vm_compute; reflexivity).
  split; [exact Hp|].
  apply (bump_version_limit _ _ _ _ _ Hp). unfold bumped_part.
  change (str_eqb "major"%string "major"%string) with true. cbv iota. lia.
Qed.

(** X1.  A version that starts with three numerals separated by dots,
    and goes on with nothing or with a part that a hyphen or a plus sign
    introduces, parses to the values of the three numerals. *)
Theorem valid_version_parses (major minor patch tail : str) :
  numeral major = true ->
  numeral minor = true ->
  numeral patch = true ->
  (forall c t, tail = c :: t -> c = "-"%char \/ c = "+"%char) ->
  exists a b c : Z,
    py_int major = Ok a /\ py_int minor = Ok b /\ py_int patch = Ok c /\
    (0 <= a < int_text_limit)%Z /\ (0 <= b < int_text_limit)%Z /\
    (0 <= c < int_text_limit)%Z /\
    parse_version_parts
      (major ++ "."%char :: minor ++ "."%char :: patch ++ tail)
    = Ok (a, b, c).
Proof.
  intros Hmaj Hmin Hpat Htail.
  apply py_int_numeral in Hmaj as [a Ha], Hmin as [b Hb], Hpat as [c Hc].
  exists a, b, c.
  split; [exact Ha|]. split; [exact Hb|]. split; [exact Hc|].
  split; [exact (py_int_bound _ _ Ha)|]. split; [exact (py_int_bound _ _ Hb)|].
  split; [exact (py_int_bound _ _ Hc)|].
  now apply parse_core.
Qed.

Lemma valid_version_parses_witness :
  numeral "10"%string = true /\
  numeral "0"%string = true /\
  numeral "7"%string = true /\
  parse_version_parts "10.0.7-rc.1+build-5"%string = Ok (10, 0, 7)%Z.
Proof.
  repeat (split; [vm_compute; reflexivity|]).
  destruct (valid_version_parses "10"%string "0"%string "7"%string
              "-rc.1+build-5"%string)
    as (a & b & c & Ha & Hb & Hc & _ & _ & _ & Hp).
  - vm_compute. reflexivity.
  - vm_compute. reflexivity.
  - vm_compute. reflexivity.
  - intros x t H. injection H as <- _. now left.
  - vm_compute in Ha, Hb, Hc. injection Ha as <-. injection Hb as <-.
    injection Hc as <-. exact Hp.
Defined.

(** X2.  Bumping and parsing again: from a version that parses to
    [(major, minor, patch)], the major bump parses to
    [(major+1, 0, 0)], the minor bump to [(major, minor+1, 0)] and
    any other bump to [(major, minor, patch+1)], as long as the number
    that is incremented stays below [int_text_limit]. *)
Theorem bump_then_parse (v : str) (major minor patch : Z) :
  parse_version_parts v = Ok (major, minor, patch) ->
  ((major + 1 < int_text_limit)%Z ->
   (r <- bump_version v "major"%string ;; parse_version_parts r)
   = Ok (major + 1, 0, 0)%Z) /\
  ((minor + 1 < int_text_limit)%Z ->
   (r <- bump_version v "minor"%string ;; parse_version_parts r)
   = Ok (major, minor + 1, 0)%Z) /\
  (forall kind : str,
      kind <> list_ascii_of_string "major" ->
      kind <> list_ascii_of_string "minor" ->
      (patch + 1 < int_text_limit)%Z ->
      (r <- bump_version v kind ;; parse_version_parts r)
      = Ok (major, minor, patch + 1)%Z).
Proof.
  intros Hp.
  assert (G : forall kind,
             (bumped_part kind (major, minor, patch) + 1 < int_text_limit)%Z ->
             (r <- bump_version v kind ;; parse_version_parts r)
             = Ok (if str_eqb kind "major"%string then (major + 1, 0, 0)
                   else if str_eqb kind "minor"%string then (major, minor + 1, 0)
                   else (major, minor, patch + 1))%Z).
  { intros kind Hl.
    destruct (bump_version_text v kind _ _ _ Hp Hl)
      as (a' & b' & c' & -> & Ha & Hb & Hc & <-).
    cbn [bind]. now apply parse_of_numbers. }
  split; [intros Hl; now rewrite G|].
  split; [intros Hl; now rewrite G|].
  intros kind Hmaj Hmin Hl.
  rewrite G by (rewrite bumped_part_other by assumption; exact Hl).
  now rewrite (str_eqb_neq _ _ Hmaj), (str_eqb_neq _ _ Hmin).
Qed.

Lemma bump_then_parse_witness :
  parse_version_parts "1.9.3-beta"%string = Ok (1, 9, 3)%Z /\
  (9 + 1 < int_text_limit)%Z /\
  (r <- bump_version "1.9.3-beta"%string "minor"%string ;; parse_version_parts r)
  = Ok (1, 10, 0)%Z.
Proof.
  assert (Hp : parse_version_parts "1.9.3-beta"%string = Ok (1, 9, 3)%Z)
    by (vm_compute; reflexivity).
  assert (Hl : (9 + 1 < int_text_limit)%Z) by (vm_compute; reflexivity).
  split; [exact Hp|]. split; [exact Hl|].
  exact (proj1 (proj2 (bump_then_parse (list_ascii_of_string "1.9.3-beta")
                         1 9 3 Hp)) Hl).
Defined.

(** X4.  A bump gives a later version: when the number that is
    incremented stays below [int_text_limit], the bumped version parses
    to a triple greater than the one bumped, in the order
    [get_latest_project_version] compares by. *)
Theorem bump_version_later (v kind : str) (t : Z * Z * Z) :
  parse_version_parts v = Ok t ->
  (bumped_part kind t + 1 < int_text_limit)%Z ->
  exists r t',
    bump_version v kind = Ok r /\ parse_version_parts r = Ok t' /\
    tuple_gt t' t = Ok true /\ tuple_gt t t' = Ok false.
Proof.
  destruct t as [[a b] c]. intros Hp Hl.
  destruct (bump_version_text v kind _ _ _ Hp Hl)
    as (a' & b' & c' & -> & Ha & Hb & Hc & Ht).
  eexists _, (a', b', c'). split; [reflexivity|].
  split; [now apply parse_of_numbers|].
  destruct (parse_version_parts_bound _ _ _ _ Hp) as (Ha0 & Hb0 & Hc0).
  unfold tuple_gt.
  destruct (str_eqb kind "major"%string);
    [|destruct (str_eqb kind "minor"%string)];
    injection Ht as -> -> ->; split; f_equal;
    repeat match goal with
           | |- context [(?x =? ?y)%Z] =>
               destruct (Z.eqb_spec x y); try lia
           end;
    try (apply Z.ltb_lt; lia); try (apply Z.ltb_ge; lia).
Qed.

Lemma bump_version_later_witness :
  parse_version_parts "1.9.3"%string = Ok (1, 9, 3)%Z /\
  (bumped_part "major"%string (1, 9, 3) + 1 < int_text_limit)%Z /\
  exists r t',
    bump_version "1.9.3"%string "major"%string = Ok r /\
    parse_version_parts r = Ok t' /\
    tuple_gt t' (1, 9, 3)%Z = Ok true /\ tuple_gt (1, 9, 3)%Z t' = Ok false.
Proof.
  assert (Hp : parse_version_parts "1.9.3"%string = Ok (1, 9, 3)%Z)
    by (vm_compute; reflexivity).
  assert (Hl : (bumped_part "major"%string (1, 9, 3) + 1 < int_text_limit)%Z)
    by (vm_compute; reflexivity).
  split; [exact Hp|]. split; [exact Hl|].
  exact (bump_version_later (list_ascii_of_string "1.9.3")
           (list_ascii_of_string "major") (1, 9, 3)%Z Hp Hl).
Defined.

(** X16.  The parse looks at nothing from the first hyphen or plus sign
    on: a text without either sign parses the same with any suffix
    attached by one of them. *)
Theorem parse_ignores_suffix (core tail : str) :
  ~ In "-"%char core -> ~ In "+"%char core ->
  parse_version_parts (core ++ "-"%char :: tail) = parse_version_parts core /\
  parse_version_parts (core ++ "+"%char :: tail) = parse_version_parts core.
Proof.
  intros Hm Hp.
  assert (Hc : first (split_on "+" (first (split_on "-" core))) = core).
  { rewrite (first_split_on_whole "-" core Hm).
    now apply first_split_on_whole. }
  unfold parse_version_parts. rewrite Hc. split.
  - rewrite first_split_on_app, first_split_on_sep, List.app_nil_r by exact Hm.
    now rewrite first_split_on_whole.
  - rewrite (first_split_on_app "-" core) by exact Hm.
    rewrite first_split_on_app by exact Hp.
    change ("+"%char :: tail) with (["+"%char] ++ tail).
    rewrite (first_split_on_app "-" ["+"%char]) by (intros [H|[]]; discriminate).
    cbn [app]. now rewrite first_split_on_sep, List.app_nil_r.
Qed.

Lemma parse_ignores_suffix_witness :
  parse_version_parts "3.1.4-rc.2+exp.sha-5114f85"%string
  = parse_version_parts "3.1.4"%string.
Proof.
  apply (parse_ignores_suffix (list_ascii_of_string "3.1.4")
           (list_ascii_of_string "rc.2+exp.sha-5114f85")).
  - vm_compute. intuition discriminate.
  - vm_compute. intuition discriminate.
Defined.

(** ** The change classifier *)

Example classify_ex1 :
  analyze_prompt_changes "Summarize the text."%string
    "Translate the text into French instead of summarizing."%string
  = list_ascii_of_string "major".
Proof. vm_compute. reflexivity. Qed.

Lemma new_only_same (p : str) (keywords : list str) :
  existsb (new_only p p) keywords = false.
Proof.
  induction keywords as [|k ks IH]; simpl; [reflexivity|].
  rewrite IH. unfold new_only. now destruct (contains k p).
Qed.

Lemma mem_true (w : str) (A : list str) : mem w A = true <-> In w A.
Proof. unfold mem. destruct (in_dec str_dec w A); split; congruence. Qed.

Lemma set_inter_same (A : list str) : set_inter A A = A.
Proof.
  unfold set_inter. apply forallb_filter_id.
  apply forallb_forall. intros w Hw. now apply mem_true.
Qed.

Lemma set_diff_same (A : list str) : set_diff A A = [].
Proof.
  unfold set_diff.
  assert (H : forall B, incl B A -> filter (fun w => negb (mem w A)) B = []).
  { induction B as [|b B IH]; intros Hi; simpl; [reflexivity|].
    assert (Hb : mem b A = true) by (apply mem_true, Hi; now left).
    rewrite Hb. simpl. apply IH. intros x Hx. apply Hi. now right. }
  apply H, incl_refl.
Qed.

Lemma nodup_absorb (A B : list str) :
  incl A B -> nodup str_dec (A ++ B) = nodup str_dec B.
Proof.
  induction A as [|a A IH]; intros Hi; simpl; [reflexivity|].
  destruct (in_dec str_dec a (A ++ B)) as [_|Hn].
  - apply IH. intros x Hx. apply Hi. now right.
  - exfalso. apply Hn, in_or_app. right. apply Hi. now left.
Qed.

Lemma set_union_same (ws : list str) :
  set_union (set_of ws) (set_of ws) = set_of ws.
Proof.
  unfold set_union, set_of. rewrite nodup_absorb by apply incl_refl.
  apply nodup_fixed_point, NoDup_nodup.
Qed.

Lemma _is_major_change_same (p : str) : _is_major_change p p = false.
Proof.
  unfold _is_major_change. rewrite new_only_same.
  rewrite set_inter_same, set_union_same.
  unfold ratio_gt, ratio_lt.
  rewrite !Z.sub_diag. simpl Z.abs.
  pose proof (len_nonneg (split_on "." p)) as H1.
  pose proof (len_nonneg p) as H2.
  pose proof (len_nonneg (set_of (split_ws p))) as H3.
  replace (6 * Z.max (len (split_on "." p)) 1 <? 10 * 0)%Z with false
    by (symmetry; apply Z.ltb_ge; lia).
  replace (100 * len (set_of (split_ws p)) <? 25 * len (set_of (split_ws p)))%Z
    with false by (symmetry; apply Z.ltb_ge; lia).
  replace (8 * len p <? 10 * 0)%Z with false by (symmetry; apply Z.ltb_ge; lia).
  now rewrite !andb_false_r.
Qed.

Lemma _is_minor_change_same (p : str) : _is_minor_change p p = false.
Proof.
  unfold _is_minor_change. rewrite !new_only_same, set_diff_same.
  pose proof (len_nonneg p) as H1.
  pose proof (len_nonneg (sentences p)) as H2.
  replace (8 <? len (@nil str))%Z with false by reflexivity.
  replace (13 * len p <? 10 * len p)%Z with false
    by (symmetry; apply Z.ltb_ge; lia).
  replace (len (sentences p) + 1 <? len (sentences p))%Z with false
    by (symmetry; apply Z.ltb_ge; lia).
  now rewrite andb_false_r.
Qed.

Lemma lstrip_app_word (a t : str) (c : ascii) :
  isspace c = false -> lstrip (a ++ c :: t) = lstrip a ++ c :: t.
Proof.
  intros Hc. induction a as [|x a IH]; simpl.
  - now rewrite Hc.
  - destruct (isspace x); [exact IH|reflexivity].
Qed.

Lemma rstrip_app_word (a t : str) (c : ascii) :
  isspace c = false -> rstrip (a ++ t ++ [c]) = a ++ t ++ [c].
Proof.
  intros Hc. unfold rstrip.
  rewrite app_assoc, rev_app_distr. simpl. rewrite Hc.
  change (c :: rev (a ++ t)) with (rev [c] ++ rev (a ++ t)).
  rewrite <- rev_app_distr, rev_involutive. now rewrite <- app_assoc.
Qed.

Lemma sub_ws_app_word (b : bool) (a t : str) (c : ascii) :
  isspace c = false ->
  sub_ws b (a ++ c :: t) = sub_ws b a ++ c :: sub_ws false t.
Proof.
  intros Hc. revert b. induction a as [|x a IH]; intros b; simpl.
  - now rewrite Hc.
  - destruct (isspace x).
    + destruct b; simpl; now rewrite IH.
    + simpl. now rewrite IH.
Qed.

Lemma contains_app_r (k a b : str) :
  contains k b = true -> contains k (a ++ b) = true.
Proof.
  intros Hb. induction a as [|x a IH]; simpl; [exact Hb|].
  rewrite IH. apply orb_true_r.
Qed.

Lemma lstrip_head (s t : str) (c : ascii) :
  lstrip s = c :: t -> isspace c = false.
Proof.
  induction s as [|x s IH]; simpl; [discriminate|].
  destruct (isspace x) eqn:Hx; [exact IH|]. intros H. now injection H as <- _.
Qed.

Lemma strip_last (v s : str) (c : ascii) :
  strip v = s ++ [c] -> isspace c = false.
Proof.
  unfold strip, rstrip. intros H.
  apply (f_equal (@rev ascii)) in H.
  rewrite rev_involutive, rev_app_distr in H. simpl in H.
  eapply lstrip_head; eauto.
Qed.


(** *** The normal form *)

Lemma lower_char_space (c : ascii) : isspace (lower_char c) = isspace c.
Proof. by_ascii_cases c. Qed.

Lemma lower_char_idem (c : ascii) : lower_char (lower_char c) = lower_char c.
Proof. by_ascii_cases c. Qed.

Lemma lower_idem (s : str) : lower (lower s) = lower s.
Proof.
  unfold lower. rewrite map_map. apply map_ext. apply lower_char_idem.
Qed.

Lemma lstrip_lower (s : str) : lstrip (lower s) = lower (lstrip s).
Proof.
  induction s as [|c s IH]; simpl; [reflexivity|].
  rewrite lower_char_space. destruct (isspace c); [exact IH|reflexivity].
Qed.

Lemma strip_lower (s : str) : strip (lower s) = lower (strip s).
Proof.
  unfold strip, rstrip. rewrite lstrip_lower. unfold lower.
  rewrite <- map_rev. fold (lower (rev (lstrip s))).
  rewrite lstrip_lower. unfold lower. now rewrite map_rev.
Qed.

Lemma sub_ws_lower (b : bool) (s : str) : sub_ws b (lower s) = lower (sub_ws b s).
Proof.
  revert b. induction s as [|c s IH]; intros b; simpl; [reflexivity|].
  rewrite lower_char_space.
  destruct (isspace c); [destruct b|]; simpl; now rewrite IH.
Qed.

Lemma sub_ws_idem (s : str) :
  (forall b, sub_ws false (sub_ws b s) = sub_ws b s) /\
  sub_ws true (sub_ws true s) = sub_ws true s.
Proof.
  induction s as [|c s [IH1 IH2]]; [split; [intros b|]; reflexivity|].
  split; [intros b|]; simpl; destruct (isspace c) eqn:Hc.
  - destruct b; [apply IH1|]. simpl. now rewrite IH2.
  - simpl. rewrite Hc. now rewrite IH1.
  - exact IH2.
  - simpl. rewrite Hc. now rewrite IH1.
Qed.

Lemma forallb_rev {A : Type} (p : A -> bool) (l : list A) :
  forallb p (rev l) = forallb p l.
Proof.
  induction l as [|x l IH]; simpl; [reflexivity|].
  rewrite forallb_app, IH. simpl. rewrite andb_true_r. apply andb_comm.
Qed.

Lemma lstrip_app (a b : str) :
  lstrip (a ++ b) = if forallb isspace a then lstrip b else lstrip a ++ b.
Proof.
  induction a as [|x a IH]; simpl; [reflexivity|].
  destruct (isspace x); simpl; [exact IH|reflexivity].
Qed.

Lemma lstrip_all_space (s : str) : forallb isspace s = true -> lstrip s = [].
Proof.
  induction s as [|x s IH]; simpl; [reflexivity|].
  destruct (isspace x); simpl; [exact IH|discriminate].
Qed.

Lemma rstrip_cons (c : ascii) (t : str) :
  rstrip (c :: t) = if isspace c && forallb isspace t then [] else c :: rstrip t.
Proof.
  unfold rstrip. simpl rev. rewrite lstrip_app, forallb_rev.
  destruct (forallb isspace t) eqn:Ht.
  - rewrite (lstrip_all_space (rev t)) by (now rewrite forallb_rev).
    rewrite andb_true_r. simpl. now destruct (isspace c).
  - rewrite andb_false_r, rev_app_distr. reflexivity.
Qed.

Lemma split_ws_all_space (s : str) :
  forallb isspace s = true <-> split_ws s = [].
Proof.
  induction s as [|c t IH]; simpl; [tauto|].
  destruct (isspace c) eqn:Hc; simpl; [exact IH|].
  split; [discriminate|].
  destruct t as [|d t']; [discriminate|].
  destruct (isspace d); [discriminate|].
  destruct (split_ws (d :: t')); discriminate.
Qed.

Lemma split_ws_lstrip (s : str) : split_ws (lstrip s) = split_ws s.
Proof.
  induction s as [|c t IH]; [reflexivity|].
  cbn [lstrip]. destruct (isspace c) eqn:Hc; [|reflexivity].
  rewrite IH. cbn [split_ws]. now rewrite Hc.
Qed.

Lemma split_ws_word (c : ascii) (s : str) :
  isspace c = false ->
  exists w ws, split_ws (c :: s) = w :: ws.
Proof.
  intros Hc. cbn [split_ws]. rewrite Hc.
  destruct s as [|d t]; [eauto|].
  destruct (isspace d); [eauto|].
  destruct (split_ws (d :: t)); eauto.
Qed.

(** Collapsing the whitespace of a right-stripped text gives its words,
    joined by single spaces. *)
Lemma sub_ws_rstrip_words (s : str) :
  sub_ws true (rstrip s) = join_space (split_ws s) /\
  (forall c, isspace c = false ->
             c :: sub_ws false (rstrip s) = join_space (split_ws (c :: s))).
Proof.
  induction s as [|d t [IHP IHQ]].
  - split; [reflexivity|]. intros c Hc. cbn [split_ws]. now rewrite Hc.
  - split.
    + rewrite rstrip_cons. destruct (isspace d) eqn:Hd.
      * replace (split_ws (d :: t)) with (split_ws t)
          by (cbn [split_ws]; now rewrite Hd).
        destruct (forallb isspace t) eqn:Ht; cbn [andb].
        -- apply split_ws_all_space in Ht. now rewrite Ht.
        -- cbn [sub_ws]. rewrite Hd. exact IHP.
      * cbn [andb sub_ws]. rewrite Hd. now apply IHQ.
    + intros c Hc. rewrite rstrip_cons. destruct (isspace d) eqn:Hd.
      * replace (split_ws (c :: d :: t)) with ([c] :: split_ws t)
          by (cbn [split_ws]; now rewrite Hc, Hd).
        destruct (forallb isspace t) eqn:Ht; cbn [andb].
        -- apply split_ws_all_space in Ht. now rewrite Ht.
        -- cbn [sub_ws]. rewrite Hd, IHP.
           destruct (split_ws t) as [|w ws] eqn:Ew; [|reflexivity].
           apply split_ws_all_space in Ew. congruence.
      * cbn [andb sub_ws]. rewrite Hd, (IHQ d Hd).
        destruct (split_ws_word d t Hd) as (w & ws & Ew).
        replace (split_ws (c :: d :: t)) with ((c :: w) :: ws)
          by (cbn [split_ws]; rewrite Hc, Hd;
              cbn [split_ws] in Ew; rewrite Hd in Ew; now rewrite Ew).
        rewrite Ew. cbn [join_space]. now destruct ws.
Qed.

Lemma sub_ws_strip_words (p : str) :
  sub_ws false (strip p) = join_space (split_ws p).
Proof.
  unfold strip. rewrite <- split_ws_lstrip.
  destruct (lstrip p) as [|c t] eqn:E.
  - reflexivity.
  - pose proof (lstrip_head _ _ _ E) as Hc.
    rewrite rstrip_cons, Hc. cbn [andb sub_ws]. rewrite Hc.
    now apply sub_ws_rstrip_words.
Qed.

(** The normal form of a prompt: its words, in lower case, joined by
    single spaces. *)
Lemma normal_form_words (p : str) :
  _normalize_prompt p = lower (join_space (split_ws p)).
Proof. unfold _normalize_prompt. now rewrite sub_ws_strip_words. Qed.

Lemma normal_form_of_lower (p : str) :
  _normalize_prompt p = sub_ws false (strip (lower p)).
Proof. unfold _normalize_prompt. now rewrite strip_lower, sub_ws_lower. Qed.

Lemma same_normal_form_patch (old_prompt new_prompt : str) :
  _normalize_prompt old_prompt = _normalize_prompt new_prompt ->
  analyze_prompt_changes old_prompt new_prompt = list_ascii_of_string "patch".
Proof.
  intros Hn. unfold analyze_prompt_changes.
  destruct (str_eqb old_prompt new_prompt); [reflexivity|].
  rewrite Hn, _is_major_change_same, _is_minor_change_same. reflexivity.
Qed.

(** C10.  Two prompts with the same normal form are classified [patch],
    whether or not they are the same string.  The normal form of a
    prompt is its words, the maximal runs of characters that are not
    whitespace, in lower case and joined by single spaces: whitespace
    runs collapsed, ends trimmed, lower case.  So an edit that changes
    only the formatting (the words stay the same) is a patch, and an
    edit that changes only the capitalization (the lower-case text stays
    the same) is a patch. *)
Theorem normalized_equal_is_patch :
  (forall old_prompt new_prompt : str,
      _normalize_prompt old_prompt = _normalize_prompt new_prompt ->
      analyze_prompt_changes old_prompt new_prompt = list_ascii_of_string "patch") /\
  (forall prompt : str,
      _normalize_prompt prompt = lower (join_space (split_ws prompt))) /\
  (forall old_prompt new_prompt : str,
      split_ws old_prompt = split_ws new_prompt ->
      analyze_prompt_changes old_prompt new_prompt = list_ascii_of_string "patch") /\
  (forall old_prompt new_prompt : str,
      lower old_prompt = lower new_prompt ->
      analyze_prompt_changes old_prompt new_prompt = list_ascii_of_string "patch").
Proof.
  split; [exact same_normal_form_patch|].
  split; [exact normal_form_words|].
  split.
  - intros old_prompt new_prompt Hw. apply same_normal_form_patch.
    now rewrite !normal_form_words, Hw.
  - intros old_prompt new_prompt Hl. apply same_normal_form_patch.
    now rewrite !normal_form_of_lower, Hl.
Qed.

Lemma normalized_equal_is_patch_witness :
  _normalize_prompt "Summarize  THE text."%string
    = _normalize_prompt " summarize the
 Text. "%string /\
  list_ascii_of_string "Summarize  THE text."
    <> list_ascii_of_string " summarize the
 Text. " /\
  analyze_prompt_changes "Summarize  THE text."%string " summarize the
 Text. "%string = list_ascii_of_string "patch".
Proof.
  split; [vm_compute; reflexivity|]. split; [discriminate|].
  apply (proj1 normalized_equal_is_patch). vm_compute. reflexivity.
Defined.

(** The normal form of a prompt extended by [retries_suffix] ends with
    the lower-case words of the sentence added. *)
Lemma normalize_retries (old_prompt : str) :
  exists head : str,
    _normalize_prompt (old_prompt ++ retries_suffix)
    = head ++ list_ascii_of_string "also supports new optional retries.".
Proof.
  unfold _normalize_prompt, strip, retries_suffix.
  change (list_ascii_of_string " Also supports new optional retries.")
    with ([" "%char] ++ "A"%char :: list_ascii_of_string "lso supports new optional retries.").
  rewrite app_assoc, lstrip_app_word by reflexivity.
  change ("A"%char :: list_ascii_of_string "lso supports new optional retries.")
    with (list_ascii_of_string "Also supports new optional retries" ++ ["."%char]).
  rewrite rstrip_app_word by reflexivity.
  change (list_ascii_of_string "Also supports new optional retries" ++ ["."%char])
    with ("A"%char :: list_ascii_of_string "lso supports new optional retries.").
  rewrite sub_ws_app_word by reflexivity.
  unfold lower. rewrite map_app.
  eexists. f_equal.
Qed.

Lemma retries_keyword_in_new (old_prompt k : str) :
  contains k (list_ascii_of_string "also supports new optional retries.") = true ->
  contains k (_normalize_prompt (old_prompt ++ retries_suffix)) = true.
Proof.
  intros Hk. destruct (normalize_retries old_prompt) as [head ->].
  now apply contains_app_r.
Qed.

Lemma appended_differs (old_prompt : str) :
  str_eqb old_prompt (old_prompt ++ retries_suffix) = false.
Proof.
  destruct (str_eqb _ _) eqn:E; [|reflexivity].
  apply str_eqb_eq in E. apply (f_equal (@length ascii)) in E.
  rewrite length_app in E. simpl in E. lia.
Qed.

(** C9, as the code has it.  When no major condition fires on the
    normalized pair, and the normalized old prompt lacks one of the
    feature keywords that the appended sentence carries ("also", "new",
    "option"), the extended prompt is classified [minor]. *)
Theorem appended_feature_is_minor (old_prompt : str) :
  _is_major_change (_normalize_prompt old_prompt)
                   (_normalize_prompt (old_prompt ++ retries_suffix)) = false ->
  contains "also"%string (_normalize_prompt old_prompt) = false \/
  contains "new"%string (_normalize_prompt old_prompt) = false \/
  contains "option"%string (_normalize_prompt old_prompt) = false ->
  analyze_prompt_changes old_prompt (old_prompt ++ retries_suffix)
  = list_ascii_of_string "minor".
Proof.
  intros Hmajor Hkw. unfold analyze_prompt_changes.
  rewrite appended_differs, Hmajor.
  assert (Hfeat : existsb (new_only (_normalize_prompt old_prompt)
                             (_normalize_prompt (old_prompt ++ retries_suffix)))
                    feature_keywords = true).
  { apply existsb_exists.
    destruct Hkw as [Hk|[Hk|Hk]];
      [exists (list_ascii_of_string "also")
      |exists (list_ascii_of_string "new")
      |exists (list_ascii_of_string "option")];
      (split; [unfold feature_keywords; simpl; tauto|]);
      unfold new_only; rewrite Hk, retries_keyword_in_new by reflexivity;
      reflexivity. }
  unfold _is_minor_change. now rewrite Hfeat.
Qed.

Lemma appended_feature_is_minor_witness :
  analyze_prompt_changes
    "Summarize the following text in three short sentences. Be concise."%string
    (list_ascii_of_string
       "Summarize the following text in three short sentences. Be concise."
     ++ retries_suffix)
  = list_ascii_of_string "minor".
Proof.
  apply appended_feature_is_minor.
  - vm_compute. reflexivity.
  - left. vm_compute. reflexivity.
Defined.

(** C9 as stated fails.  A prompt of one short sentence grows by more
    than 80% of its length, and a prompt without a full stop doubles its
    count of sentences: both are classified [major].  A long prompt that
    already has the three keywords is classified [patch]. *)
Lemma appended_feature_not_always_minor :
  analyze_prompt_changes "Summarize the text."%string
    (list_ascii_of_string "Summarize the text." ++ retries_suffix)
  <> list_ascii_of_string "minor" /\
  analyze_prompt_changes [] ([] ++ retries_suffix)
  <> list_ascii_of_string "minor" /\
  analyze_prompt_changes keyworded_prompt (keyworded_prompt ++ retries_suffix)
  <> list_ascii_of_string "minor".
Proof. repeat split; vm_compute; discriminate. Qed.

(** X5.  The classification depends on the two prompts only through
    their normal forms: changing whitespace or letter case in either
    prompt never changes the result. *)
Theorem classification_by_normal_form (old_prompt new_prompt old' new' : str) :
  _normalize_prompt old_prompt = _normalize_prompt old' ->
  _normalize_prompt new_prompt = _normalize_prompt new' ->
  analyze_prompt_changes old_prompt new_prompt = analyze_prompt_changes old' new'.
Proof.
  intros Ho Hn. unfold analyze_prompt_changes.
  destruct (str_eqb old_prompt new_prompt) eqn:E;
    destruct (str_eqb old' new') eqn:E'.
  - reflexivity.
  - apply str_eqb_eq in E. subst new_prompt.
    rewrite <- Hn, <- Ho.
    now rewrite _is_major_change_same, _is_minor_change_same.
  - apply str_eqb_eq in E'. subst new'.
    rewrite Hn, Ho.
    now rewrite _is_major_change_same, _is_minor_change_same.
  - now rewrite Ho, Hn.
Qed.

Lemma classification_by_normal_form_witness :
  analyze_prompt_changes "Summarize  the TEXT."%string
    "Summarize the text. Also add a title."%string
  = analyze_prompt_changes " summarize the text. "%string
      "SUMMARIZE the text.   also add a title."%string.
Proof.
  apply classification_by_normal_form; vm_compute; reflexivity.
Defined.

Lemma rstrip_cons_word (c : ascii) (r : str) :
  isspace c = false -> rstrip (c :: r) = c :: rev (lstrip (rev r)).
Proof.
  intros Hc. unfold rstrip. simpl rev.
  rewrite lstrip_app_word by exact Hc.
  rewrite rev_app_distr. reflexivity.
Qed.

(** A stripped string is empty, or begins and ends with a character that
    is not whitespace. *)
Lemma strip_ends (p : str) :
  strip p = [] \/
  (exists c r, strip p = c :: r /\ isspace c = false) /\
  (exists q d, strip p = q ++ [d] /\ isspace d = false).
Proof.
  destruct (strip p) as [|c r] eqn:E; [now left|]. right. split.
  - exists c, r. split; [reflexivity|].
    unfold strip in E. destruct (lstrip p) as [|x y] eqn:El; [discriminate|].
    pose proof (lstrip_head _ _ _ El) as Hx.
    rewrite rstrip_cons_word in E by exact Hx. now injection E as <- _.
  - assert (Hne : c :: r <> []) by discriminate.
    destruct (exists_last Hne) as (q & d & Eq).
    exists q, d. split; [exact Eq|].
    apply (strip_last p q d). now rewrite E.
Qed.

Lemma strip_sub_ws (p : str) :
  strip (sub_ws false (strip p)) = sub_ws false (strip p).
Proof.
  destruct (strip_ends p) as [->|[(c & r & Ec & Hc) (q & d & Eq & Hd)]];
    [reflexivity|].
  assert (Hq : sub_ws false (strip p) = sub_ws false q ++ [d]).
  { rewrite Eq. now rewrite sub_ws_app_word by exact Hd. }
  assert (Hh : exists t, sub_ws false (strip p) = c :: t).
  { rewrite Ec. simpl. rewrite Hc. eauto. }
  destruct Hh as [t Ht].
  unfold strip at 1. rewrite Ht. simpl lstrip. rewrite Hc. rewrite <- Ht, Hq.
  change (sub_ws false q ++ [d]) with ([] ++ sub_ws false q ++ [d]).
  now apply rstrip_app_word.
Qed.

(** X6.  Normalizing is idempotent: a normal form is its own normal
    form. *)
Theorem _normalize_prompt_idempotent (p : str) :
  _normalize_prompt (_normalize_prompt p) = _normalize_prompt p.
Proof.
  unfold _normalize_prompt.
  rewrite strip_lower, strip_sub_ws, sub_ws_lower.
  rewrite (proj1 (sub_ws_idem (strip p)) false).
  apply lower_idem.
Qed.

(** X7.  A breaking-change phrase that the new prompt has and the old
    one lacks (in normal form) makes the change major, whatever else
    changed. *)
Theorem breaking_keyword_is_major (old_prompt new_prompt keyword : str) :
  In keyword breaking_keywords ->
  contains keyword (_normalize_prompt new_prompt) = true ->
  contains keyword (_normalize_prompt old_prompt) = false ->
  analyze_prompt_changes old_prompt new_prompt = list_ascii_of_string "major".
Proof.
  intros Hk Hnew Hold. unfold analyze_prompt_changes.
  destruct (str_eqb old_prompt new_prompt) eqn:E.
  - apply str_eqb_eq in E. subst. congruence.
  - assert (Hb : existsb (new_only (_normalize_prompt old_prompt)
                            (_normalize_prompt new_prompt)) breaking_keywords
                 = true).
    { apply existsb_exists. exists keyword. split; [exact Hk|].
      unfold new_only. now rewrite Hnew, Hold. }
    unfold _is_major_change. now rewrite Hb.
Qed.

Lemma breaking_keyword_is_major_witness :
  analyze_prompt_changes "Answer in JSON. Also be brief."%string
    "Answer in JSON. Also be brief. The field id is deprecated."%string
  = list_ascii_of_string "major".
Proof.
  apply (breaking_keyword_is_major _ _ (list_ascii_of_string "deprecated")).
  - unfold breaking_keywords. simpl. tauto.
  - vm_compute. reflexivity.
  - vm_compute. reflexivity.
Defined.

(** ** New features *)

(** X20.  A feature word or a functionality phrase that the new prompt
    has and the old one lacks (in normal form) is never a patch: the
    change is minor, unless a major condition holds as well. *)
Theorem new_feature_is_not_patch (old_prompt new_prompt keyword : str) :
  In keyword (feature_keywords ++ functionality_indicators) ->
  contains keyword (_normalize_prompt new_prompt) = true ->
  contains keyword (_normalize_prompt old_prompt) = false ->
  analyze_prompt_changes old_prompt new_prompt = list_ascii_of_string "major" \/
  analyze_prompt_changes old_prompt new_prompt = list_ascii_of_string "minor".
Proof.
  intros Hk Hnew Hold. unfold analyze_prompt_changes.
  destruct (str_eqb old_prompt new_prompt) eqn:E.
  - apply str_eqb_eq in E. subst. congruence.
  - destruct (_is_major_change _ _); [now left|right].
    assert (Hn : new_only (_normalize_prompt old_prompt)
                   (_normalize_prompt new_prompt) keyword = true)
      by (unfold new_only; now rewrite Hnew, Hold).
    assert (Hm : _is_minor_change (_normalize_prompt old_prompt)
                   (_normalize_prompt new_prompt) = true).
    { unfold _is_minor_change.
      apply in_app_or in Hk as [Hk|Hk].
      - assert (Hb : existsb (new_only (_normalize_prompt old_prompt)
                                (_normalize_prompt new_prompt)) feature_keywords
                     = true)
          by (apply existsb_exists; now exists keyword).
        now rewrite Hb.
      - assert (Hb : existsb (new_only (_normalize_prompt old_prompt)
                                (_normalize_prompt new_prompt))
                       functionality_indicators = true)
          by (apply existsb_exists; now exists keyword).
        rewrite Hb.
        repeat match goal with
               | |- (if ?b then _ else _) = _ => destruct b; [reflexivity|]
               end.
        reflexivity. }
    now rewrite Hm.
Qed.

Lemma new_feature_is_not_patch_witness :
  analyze_prompt_changes "Summarize the text in three short plain sentences."%string
    "Summarize the text in three short plain sentences, with extra care."%string
  = list_ascii_of_string "major" \/
  analyze_prompt_changes "Summarize the text in three short plain sentences."%string
    "Summarize the text in three short plain sentences, with extra care."%string
  = list_ascii_of_string "minor".
Proof.
  apply (new_feature_is_not_patch _ _ (list_ascii_of_string "extra")).
  - unfold feature_keywords. simpl. tauto.
  - vm_compute. reflexivity.
  - vm_compute. reflexivity.
Defined.


(** ** Records *)

Section ModelFacts.
Context {R : Runtime}.

Lemma py_or_idem (a b : pyval) : py_or (py_or a b) b = py_or a b.
Proof.
  unfold py_or. destruct (truthy a) eqn:Ha; [now rewrite Ha|].
  now destruct (truthy b).
Qed.

(** A record read back from its dictionary is the record. *)
Lemma from_dict_to_dict_id
    (p v fn d t : pyval) (c : option datetime) (i o et eid : pyval)
    (now now' : datetime) (r : PromptVersion) :
  PromptVersion_init p v fn d t c i o et eid now = Ok r ->
  from_dict (to_dict r) now' = Ok r.
Proof.
  unfold PromptVersion_init. destruct p; try discriminate.
  intros H. injection H as <-.
  unfold from_dict, to_dict. cbn -[py_or firstn].
  rewrite fromisoformat_isoformat. cbn -[py_or firstn].
  now rewrite !py_or_idem.
Qed.

(** C7.  For every record [r] that the constructor made, [from_dict]
    of [to_dict r] succeeds and reproduces the prompt text, version,
    owner name, tags, inputs, output and execution time; the hash of
    the record read back is computed from its prompt text and is the
    hash of [r]; and two records with the same prompt text have the
    same hash. *)
Theorem from_dict_to_dict_roundtrip
    (p v fn d t : pyval) (c : option datetime) (i o et eid : pyval)
    (now now' : datetime) (r : PromptVersion) :
  PromptVersion_init p v fn d t c i o et eid now = Ok r ->
  (exists r',
      from_dict (to_dict r) now' = Ok r' /\
      prompt r' = prompt r /\ version r' = version r /\
      function_name r' = function_name r /\ tags r' = tags r /\
      inputs r' = inputs r /\ output r' = output r /\
      execution_time r' = execution_time r /\
      prompt_hash r' = firstn 8 (md5_hexdigest (prompt r')) /\
      prompt_hash r' = prompt_hash r) /\
  (forall (p2 v2 fn2 d2 t2 : pyval) (c2 : option datetime)
          (i2 o2 et2 eid2 : pyval) (now2 : datetime) (r2 : PromptVersion),
      PromptVersion_init p2 v2 fn2 d2 t2 c2 i2 o2 et2 eid2 now2 = Ok r2 ->
      prompt r2 = prompt r -> prompt_hash r2 = prompt_hash r).
Proof.
  intros Hr.
  assert (Hhash : forall p v fn d t c i o et eid now r,
             PromptVersion_init p v fn d t c i o et eid now = Ok r ->
             prompt_hash r = firstn 8 (md5_hexdigest (prompt r))).
  { clear. intros p v fn d t c i o et eid now r.
    unfold PromptVersion_init. destruct p; try discriminate.
    intros H. injection H as <-. reflexivity. }
  split.
  - exists r. rewrite (from_dict_to_dict_id _ _ _ _ _ _ _ _ _ _ _ now' _ Hr).
    repeat split; eauto.
  - intros p2 v2 fn2 d2 t2 c2 i2 o2 et2 eid2 now2 r2 Hr2 Hp.
    rewrite (Hhash _ _ _ _ _ _ _ _ _ _ _ _ Hr), (Hhash _ _ _ _ _ _ _ _ _ _ _ _ Hr2).
    now rewrite Hp.
Qed.

End ModelFacts.

Lemma from_dict_to_dict_roundtrip_witness :
  exists r r' : @PromptVersion Reference.runtime,
    PromptVersion_init (R := Reference.runtime)
      (VStr (list_ascii_of_string "Hi"))
      (VStr (list_ascii_of_string "1.0.0")) (VStr (list_ascii_of_string "f"))
      VNone VNone None VNone (VInt 3) VNone VNone Reference.a_time = Ok r /\
    from_dict (R := Reference.runtime) (to_dict r) Reference.a_time = Ok r' /\
    output r' = VInt 3 /\
    prompt_hash r' = list_ascii_of_string "c1a5298f".
Proof.
  destruct (proj1 (from_dict_to_dict_roundtrip (R := Reference.runtime)
                     (VStr (list_ascii_of_string "Hi"))
                     (VStr (list_ascii_of_string "1.0.0"))
                     (VStr (list_ascii_of_string "f"))
                     VNone VNone None VNone (VInt 3) VNone VNone
                     Reference.a_time Reference.a_time _ eq_refl))
    as (r' & Hfd & _ & _ & _ & _ & _ & Hout & _ & _ & Hhash).
  eexists. exists r'. split; [reflexivity|]. split; [exact Hfd|].
  rewrite Hout, Hhash. split; [reflexivity|].
  vm_compute. reflexivity.
Defined.


(** ** Reading a record *)

Section FromDictFacts.
Context {R : Runtime}.

Lemma from_dict_not_dict (data : pyval) (now : datetime) :
  (forall d, data <> VDict d) -> from_dict data now = Raise TypeError.
Proof.
  intros H. unfold from_dict, subscript.
  destruct data; try reflexivity. exfalso. now apply (H items).
Qed.

Ltac from_dict_steps d :=
  unfold from_dict, subscript, py_get;
  repeat match goal with
         | E : dict_get ?k d = _ |- context [dict_get ?k d] => rewrite E
         end;
  cbn [bind];
  repeat match goal with
         | |- context [match dict_get ?k d with _ => _ end] =>
             destruct (dict_get k d); cbn [bind]
         end;
  repeat match goal with
         | E : py_fromisoformat ?c = _ |- context [py_fromisoformat ?c] =>
             rewrite E; cbn [bind]
         end.

Lemma from_dict_missing_prompt (d : list (str * pyval)) (now : datetime) :
  dict_get "prompt"%string d = None ->
  from_dict (VDict d) now = Raise (KeyError (list_ascii_of_string "prompt")).
Proof. intros E1. from_dict_steps d. reflexivity. Qed.

Lemma from_dict_missing_version (d : list (str * pyval)) (now : datetime)
    (p : pyval) :
  dict_get "prompt"%string d = Some p ->
  dict_get "version"%string d = None ->
  from_dict (VDict d) now = Raise (KeyError (list_ascii_of_string "version")).
Proof. intros E1 E2. from_dict_steps d. reflexivity. Qed.

Lemma from_dict_missing_function_name (d : list (str * pyval)) (now : datetime)
    (p v : pyval) :
  dict_get "prompt"%string d = Some p ->
  dict_get "version"%string d = Some v ->
  dict_get "function_name"%string d = None ->
  from_dict (VDict d) now
  = Raise (KeyError (list_ascii_of_string "function_name")).
Proof. intros E1 E2 E3. from_dict_steps d. reflexivity. Qed.

Lemma from_dict_missing_created_at (d : list (str * pyval)) (now : datetime)
    (p v fn : pyval) :
  dict_get "prompt"%string d = Some p ->
  dict_get "version"%string d = Some v ->
  dict_get "function_name"%string d = Some fn ->
  dict_get "created_at"%string d = None ->
  from_dict (VDict d) now = Raise (KeyError (list_ascii_of_string "created_at")).
Proof. intros E1 E2 E3 E4. from_dict_steps d; reflexivity. Qed.

Lemma from_dict_present (d : list (str * pyval)) (now : datetime)
    (p v fn c : pyval) :
  dict_get "prompt"%string d = Some p ->
  dict_get "version"%string d = Some v ->
  dict_get "function_name"%string d = Some fn ->
  dict_get "created_at"%string d = Some c ->
  match py_fromisoformat c with
  | Raise e => from_dict (VDict d) now = Raise e
  | Ok t =>
      match p with
      | VStr _ => returns (from_dict (VDict d) now) = true
      | _ => from_dict (VDict d) now
             = Raise (AttributeError (list_ascii_of_string "encode"))
      end
  end.
Proof.
  intros E1 E2 E3 E4.
  destruct (py_fromisoformat c) as [t|e] eqn:E5.
  - destruct p; from_dict_steps d; reflexivity.
  - from_dict_steps d; reflexivity.
Qed.

Lemma py_fromisoformat_ok (c : pyval) (t : datetime) :
  py_fromisoformat c = Ok t <-> exists s, c = VStr s /\ fromisoformat s = Some t.
Proof.
  unfold py_fromisoformat. split.
  - destruct c; try discriminate. destruct (fromisoformat s) eqn:E; [|discriminate].
    intros H. injection H as <-. eauto.
  - intros (s & -> & ->). reflexivity.
Qed.

(** X12.  [from_dict] succeeds on a dictionary only when the four
    required keys are there, the prompt is a string, and the timestamp
    is a string that [fromisoformat] reads.  A [KeyError] always names a
    required key that is missing, and when a required key is missing the
    error is a [KeyError], whatever else is wrong with the entry.  A
    value that is not a dictionary gives [TypeError]. *)
Theorem from_dict_outcome (d : list (str * pyval)) (now : datetime) :
  (returns (from_dict (VDict d) now) = true ->
   exists p v fn c t,
     dict_get "prompt"%string d = Some (VStr p) /\
     dict_get "version"%string d = Some v /\
     dict_get "function_name"%string d = Some fn /\
     dict_get "created_at"%string d = Some (VStr c) /\
     fromisoformat c = Some t) /\
  (forall key, from_dict (VDict d) now = Raise (KeyError key) ->
               In key required_keys /\ dict_get key d = None) /\
  (forall key, In key required_keys -> dict_get key d = None ->
               exists key', from_dict (VDict d) now = Raise (KeyError key')) /\
  (forall data, (forall d', data <> VDict d') ->
                from_dict data now = Raise TypeError).
Proof.
  assert (Hreq : forall key, In key required_keys ->
                   key = list_ascii_of_string "prompt" \/
                   key = list_ascii_of_string "version" \/
                   key = list_ascii_of_string "function_name" \/
                   key = list_ascii_of_string "created_at")
    by (unfold required_keys; simpl; intuition).
  assert (Hin : In (list_ascii_of_string "prompt") required_keys /\
                In (list_ascii_of_string "version") required_keys /\
                In (list_ascii_of_string "function_name") required_keys /\
                In (list_ascii_of_string "created_at") required_keys)
    by (unfold required_keys; simpl; tauto).
  destruct Hin as (I1 & I2 & I3 & I4).
  split; [|split; [|split; [|intros data Hd; now apply from_dict_not_dict]]].
  - cut (returns (from_dict (VDict d) now) = true <->
         exists p v fn c t,
           dict_get "prompt"%string d = Some (VStr p) /\
           dict_get "version"%string d = Some v /\
           dict_get "function_name"%string d = Some fn /\
           dict_get "created_at"%string d = Some (VStr c) /\
           fromisoformat c = Some t); [tauto|].
    destruct (dict_get "prompt"%string d) as [p|] eqn:E1.
    2:{ rewrite (from_dict_missing_prompt d now E1). split; [discriminate|].
        intros (p & v & fn & c & t & H & _). discriminate. }
    destruct (dict_get "version"%string d) as [v|] eqn:E2.
    2:{ rewrite (from_dict_missing_version d now p E1 E2). split; [discriminate|].
        intros (p' & v & fn & c & t & _ & H & _). discriminate. }
    destruct (dict_get "function_name"%string d) as [fn|] eqn:E3.
    2:{ rewrite (from_dict_missing_function_name d now p v E1 E2 E3).
        split; [discriminate|].
        intros (p' & v' & fn & c & t & _ & _ & H & _). discriminate. }
    destruct (dict_get "created_at"%string d) as [c|] eqn:E4.
    2:{ rewrite (from_dict_missing_created_at d now p v fn E1 E2 E3 E4).
        split; [discriminate|].
        intros (p' & v' & fn' & c & t & _ & _ & _ & H & _). discriminate. }
    pose proof (from_dict_present d now p v fn c E1 E2 E3 E4) as Hp.
    destruct (py_fromisoformat c) as [t|e] eqn:E5.
    + apply py_fromisoformat_ok in E5 as (s & -> & Hs).
      destruct p; try (rewrite Hp; split; [discriminate|];
                       intros (p' & _ & _ & _ & _ & H & _); discriminate).
      split; [intros _; eauto 10|intros _; exact Hp].
    + rewrite Hp. split; [discriminate|].
      intros (p' & v' & fn' & c' & t & _ & _ & _ & H & Ht).
      injection H as ->.
      assert (E : py_fromisoformat (VStr c') = Ok t)
        by (apply py_fromisoformat_ok; eauto).
      congruence.
  - intros key H.
    destruct (dict_get "prompt"%string d) as [p|] eqn:E1.
    2:{ rewrite (from_dict_missing_prompt d now E1) in H.
        injection H as <-. auto. }
    destruct (dict_get "version"%string d) as [v|] eqn:E2.
    2:{ rewrite (from_dict_missing_version d now p E1 E2) in H.
        injection H as <-. auto. }
    destruct (dict_get "function_name"%string d) as [fn|] eqn:E3.
    2:{ rewrite (from_dict_missing_function_name d now p v E1 E2 E3) in H.
        injection H as <-. auto. }
    destruct (dict_get "created_at"%string d) as [c|] eqn:E4.
    2:{ rewrite (from_dict_missing_created_at d now p v fn E1 E2 E3 E4) in H.
        injection H as <-. auto. }
    pose proof (from_dict_present d now p v fn c E1 E2 E3 E4) as Hp.
    destruct (py_fromisoformat c) as [t|e] eqn:E5.
    + destruct p; rewrite H in Hp; discriminate Hp.
    + rewrite Hp in H. injection H as ->.
      unfold py_fromisoformat in E5. destruct c; try discriminate.
      destruct (fromisoformat s); discriminate.
  - intros key Hk Hmiss.
    destruct (dict_get "prompt"%string d) as [p|] eqn:E1;
      [|eexists; now apply from_dict_missing_prompt].
    destruct (dict_get "version"%string d) as [v|] eqn:E2;
      [|eexists; eapply from_dict_missing_version; eauto].
    destruct (dict_get "function_name"%string d) as [fn|] eqn:E3;
      [|eexists; eapply from_dict_missing_function_name; eauto].
    destruct (dict_get "created_at"%string d) as [c|] eqn:E4;
      [|eexists; eapply from_dict_missing_created_at; eauto].
    destruct (Hreq key Hk) as [ -> | [ -> | [ -> | -> ] ] ]; congruence.
Qed.

End FromDictFacts.

(** ** Regular expressions *)

Lemma Lang_nil_nullable (r : regex) (s : ustr) :
  Lang r s -> s = [] -> nullable r = true.
Proof.
  induction 1; intros Hs; simpl; try reflexivity; try discriminate.
  - apply app_eq_nil in Hs as [-> ->]. now rewrite IHLang1, IHLang2.
  - now rewrite IHLang.
  - rewrite IHLang by assumption. apply orb_true_r.
Qed.

Lemma nullable_Lang_nil (r : regex) : nullable r = true -> Lang r [].
Proof.
  induction r; simpl; intros H; try discriminate.
  - constructor.
  - apply andb_true_iff in H as [H1 H2].
    change (@nil N) with (@nil N ++ []). constructor; auto.
  - apply orb_true_iff in H as [H|H]; [apply LAltL|apply LAltR]; auto.
  - constructor.
Qed.

Lemma deriv_sound (c : N) (r : regex) (s : ustr) :
  Lang (deriv c r) s -> Lang r (c :: s).
Proof.
  revert s. induction r; intros s H; simpl in H.
  - inversion H.
  - inversion H.
  - destruct (p c) eqn:Hp; inversion H; subst. now constructor.
  - assert (Hcat : forall w, Lang (Cat (deriv c r1) r2) w -> Lang (Cat r1 r2) (c :: w)).
    { intros w Hw. inversion Hw; subst.
      change (c :: s1 ++ s2) with ((c :: s1) ++ s2). constructor; auto. }
    destruct (nullable r1) eqn:Hn; [|now apply Hcat].
    inversion H; subst; [now apply Hcat|].
    change (c :: s) with ([] ++ c :: s). constructor; auto.
    now apply nullable_Lang_nil.
  - inversion H; subst; [apply LAltL|apply LAltR]; auto.
  - inversion H; subst.
    change (c :: s1 ++ s2) with ((c :: s1) ++ s2). constructor; auto.
Qed.

Lemma deriv_complete (r : regex) (w : ustr) :
  Lang r w -> forall c s, w = c :: s -> Lang (deriv c r) s.
Proof.
  induction 1; intros c0 s0 Hw; simpl.
  - discriminate.
  - injection Hw as -> <-. rewrite H. constructor.
  - destruct s1 as [|a s1].
    + simpl in Hw. subst s2.
      rewrite (Lang_nil_nullable _ _ H eq_refl).
      apply LAltR. now apply IHLang2.
    + simpl in Hw. injection Hw as -> <-.
      assert (Hc : Lang (Cat (deriv c0 r1) r2) (s1 ++ s2))
        by (constructor; auto).
      destruct (nullable r1); [now apply LAltL|exact Hc].
  - apply LAltL. now apply IHLang.
  - apply LAltR. now apply IHLang.
  - discriminate.
  - destruct s1 as [|a s1].
    + simpl in Hw. now apply IHLang2.
    + simpl in Hw. injection Hw as -> <-.
      constructor; auto.
Qed.

(** The matcher decides the language of the expression. *)
Lemma fullmatch_Lang (r : regex) (s : ustr) : fullmatch r s = true <-> Lang r s.
Proof.
  revert r. induction s as [|c s IH]; intros r; simpl.
  - split; [apply nullable_Lang_nil|intros H; eapply Lang_nil_nullable; eauto].
  - rewrite IH. split; [apply deriv_sound|intros H; eapply deriv_complete; eauto].
Qed.

Lemma Lang_Eps (s : ustr) : Lang Eps s <-> s = [].
Proof. split; [now inversion 1|intros ->; constructor]. Qed.

Lemma Lang_Class (p : N -> bool) (s : ustr) :
  Lang (Class p) s <-> exists c, s = [c] /\ p c = true.
Proof.
  split; [inversion 1; eauto|intros (c & -> & H); now constructor].
Qed.

Lemma Lang_Chr (c : ascii) (s : ustr) : Lang (Chr c) s <-> s = [code c].
Proof.
  unfold Chr. rewrite Lang_Class. split.
  - intros (x & -> & H). apply N.eqb_eq in H. now subst.
  - intros ->. exists (code c). split; [reflexivity|apply N.eqb_refl].
Qed.

Lemma Lang_Cat (r1 r2 : regex) (s : ustr) :
  Lang (Cat r1 r2) s <-> exists s1 s2, s = s1 ++ s2 /\ Lang r1 s1 /\ Lang r2 s2.
Proof.
  split; [inversion 1; eauto|intros (s1 & s2 & -> & H1 & H2); now constructor].
Qed.

Lemma Lang_Alt (r1 r2 : regex) (s : ustr) :
  Lang (Alt r1 r2) s <-> Lang r1 s \/ Lang r2 s.
Proof.
  split; [inversion 1; auto|intros [H|H]; [apply LAltL|apply LAltR]; auto].
Qed.

Lemma Lang_Opt (r : regex) (s : ustr) : Lang (Opt r) s <-> Lang r s \/ s = [].
Proof. unfold Opt. now rewrite Lang_Alt, Lang_Eps. Qed.

Lemma Lang_Star_Class (p : N -> bool) (s : ustr) :
  Lang (Star (Class p)) s <-> forallb p s = true.
Proof.
  split.
  - intros H. remember (Star (Class p)) as r eqn:Er.
    induction H; try discriminate; [reflexivity|].
    injection Er as ->. apply Lang_Class in H as (c & -> & Hc). simpl.
    rewrite Hc. now apply IHLang2.
  - induction s as [|c s IH]; simpl; intros H; [constructor|].
    apply andb_true_iff in H as [Hc Hs].
    change (c :: s) with ([c] ++ s). constructor; [now constructor|auto].
Qed.

Lemma re_match_anchored_spec (r : regex) (s : ustr) :
  re_match_anchored r s = true <->
  Lang r s \/ exists s', s = s' ++ [code "010"] /\ Lang r s'.
Proof.
  unfold re_match_anchored. rewrite fullmatch_Lang, Lang_Cat. split.
  - intros (s1 & s2 & -> & H1 & H2).
    apply Lang_Opt in H2 as [H2| ->].
    + apply Lang_Chr in H2. subst s2. eauto.
    + rewrite List.app_nil_r. now left.
  - intros [H|(s' & -> & H)].
    + exists s, []. rewrite List.app_nil_r. repeat split; auto.
      apply Lang_Opt. now right.
    + exists s', [code "010"]. repeat split; auto.
      apply Lang_Opt. left. now apply Lang_Chr.
Qed.

(** Expressions that agree on the characters of a string match it
    alike. *)
Lemma agree_nullable (P : N -> Prop) (r r' : regex) :
  agree P r r' -> nullable r = nullable r'.
Proof.
  revert r'. induction r; destruct r'; simpl; try tauto.
  - intros [H1 H2]. now rewrite (IHr1 _ H1), (IHr2 _ H2).
  - intros [H1 H2]. now rewrite (IHr1 _ H1), (IHr2 _ H2).
Qed.

Lemma agree_deriv (P : N -> Prop) (c : N) (r r' : regex) :
  P c -> agree P r r' -> agree P (deriv c r) (deriv c r').
Proof.
  intros Hc. revert r'. induction r; destruct r'; simpl; try tauto.
  - intros H. rewrite (H c Hc). now destruct (p0 c).
  - intros [H1 H2]. rewrite (agree_nullable P _ _ H1).
    destruct (nullable r'1); simpl; auto.
  - intros [H1 H2]. auto.
  - intros H. simpl. auto.
Qed.

Lemma agree_fullmatch (P : N -> Prop) (s : ustr) (r r' : regex) :
  Forall P s -> agree P r r' -> fullmatch r s = fullmatch r' s.
Proof.
  intros Hs. revert r r'. induction Hs as [|c s Hc Hs IH]; intros r r' H; simpl.
  - now apply (agree_nullable P).
  - apply IH. now apply agree_deriv.
Qed.

(** ** Stripping code points *)

Lemma ulstrip_head (s t : ustr) (c : N) :
  ulstrip s = c :: t -> uisspace c = false.
Proof.
  induction s as [|x s IH]; simpl; [discriminate|].
  destruct (uisspace x) eqn:Hx; [exact IH|]. intros H. now injection H as <- _.
Qed.

Lemma ustrip_last (v s : ustr) (c : N) :
  ustrip v = s ++ [c] -> uisspace c = false.
Proof.
  unfold ustrip, urstrip. intros H.
  apply (f_equal (@rev N)) in H.
  rewrite rev_involutive, rev_app_distr in H. simpl in H.
  eapply ulstrip_head; eauto.
Qed.

Lemma ustrip_fixed (c d : N) (s : ustr) :
  uisspace c = false -> uisspace d = false ->
  ustrip (c :: s ++ [d]) = c :: s ++ [d].
Proof.
  intros Hc Hd. unfold ustrip. cbn [ulstrip]. rewrite Hc.
  unfold urstrip.
  replace (rev (c :: s ++ [d])) with (d :: rev (c :: s))
    by (change (c :: s ++ [d]) with ((c :: s) ++ [d]);
        now rewrite rev_app_distr).
  cbn [ulstrip]. rewrite Hd.
  change (rev (d :: rev (c :: s))) with (rev (rev (c :: s)) ++ [d]).
  now rewrite rev_involutive.
Qed.

Lemma ulstrip_in (s : ustr) (c : N) : In c (ulstrip s) -> In c s.
Proof.
  induction s as [|x s IH]; simpl; [auto|].
  destruct (uisspace x); [intros H; right; auto|auto].
Qed.

Lemma ustrip_in (s : ustr) (c : N) : In c (ustrip s) -> In c s.
Proof.
  unfold ustrip, urstrip. intros H. apply in_rev in H.
  apply ulstrip_in in H. apply in_rev in H. now apply ulstrip_in.
Qed.

(** ** The validator and the grammar *)

Lemma forallb_first_failure {A : Type} (p : A -> bool) (l : list A) :
  forallb p l = false ->
  exists pre a post, l = pre ++ a :: post /\ forallb p pre = true /\ p a = false.
Proof.
  induction l as [|x l IH]; simpl; [discriminate|].
  destruct (p x) eqn:Hx; simpl; intros H.
  - destruct (IH H) as (pre & a & post & -> & Hpre & Ha).
    exists (x :: pre), a, post. simpl. now rewrite Hx.
  - exists [], x, l. auto.
Qed.

Section ValidatorFacts.
Context {U : Unicode}.

Lemma alpha_ascii (c : N) : isletter c || ishyphen c = true -> (c < 128)%N.
Proof.
  unfold isletter, ishyphen, between. intros H.
  repeat (apply orb_true_iff in H as [H|H]);
    try (apply andb_true_iff in H as [_ H]; apply N.leb_le in H; lia).
  apply N.eqb_eq in H. lia.
Qed.

Lemma alpha_not_decimal (c : N) :
  isletter c || ishyphen c = true -> decimal_digit c = false.
Proof.
  intros H. rewrite decimal_digit_ascii by now apply alpha_ascii.
  unfold isletter, ishyphen, between in *.
  destruct (N.leb_spec 48 c), (N.leb_spec c 57); try reflexivity.
  exfalso.
  repeat (apply orb_true_iff in H as [H|H]);
    try (apply andb_true_iff in H as [H _]; apply N.leb_le in H; lia).
  apply N.eqb_eq in H. lia.
Qed.

Lemma Lang_numeric (s : ustr) :
  Lang re_numeric s <-> numeric_identifier s = true.
Proof.
  unfold re_numeric, re_nonzero, re_digit.
  rewrite Lang_Alt, Lang_Chr, Lang_Cat. split.
  - intros [->|(s1 & s2 & -> & H1 & H2)]; [reflexivity|].
    apply Lang_Class in H1 as (c & -> & Hc).
    apply Lang_Star_Class in H2.
    simpl. rewrite Hc, H2. apply orb_true_r.
  - destruct s as [|c t]; simpl; [discriminate|]. intros H.
    apply orb_true_iff in H as [H|H]; apply andb_true_iff in H as [Hc Ht].
    + apply N.eqb_eq in Hc. subst c. destruct t; [now left|discriminate].
    + right. exists [c], t. split; [reflexivity|]. split.
      * apply Lang_Class. exists c. auto.
      * now apply Lang_Star_Class.
Qed.

Lemma re_alnum_identifier (s : ustr) :
  Lang (Star re_alnum) s <-> forallb identifier_char s = true.
Proof. unfold re_alnum. apply Lang_Star_Class. Qed.

Lemma Lang_build_identifier (s : ustr) :
  Lang re_build_identifier s <-> build_identifier s = true.
Proof.
  unfold re_build_identifier, Plus. rewrite Lang_Cat. split.
  - intros (s1 & s2 & -> & H1 & H2).
    apply Lang_Class in H1 as (c & -> & Hc).
    apply re_alnum_identifier in H2. simpl.
    change (identifier_char c = true) in Hc. now rewrite Hc, H2.
  - destruct s as [|c t]; simpl; [discriminate|]. intros H.
    apply andb_true_iff in H as [Hc Ht].
    exists [c], t. split; [reflexivity|]. split.
    + apply Lang_Class. exists c. split; [reflexivity|exact Hc].
    + now apply re_alnum_identifier.
Qed.

Lemma skip_digits_app (ds post : ustr) (c : N) :
  forallb decimal_digit ds = true -> decimal_digit c = false ->
  skip_digits (ds ++ c :: post) = c :: post.
Proof.
  intros Hds Hc. induction ds as [|d ds IH]; simpl.
  - now rewrite Hc.
  - simpl in Hds. apply andb_true_iff in Hds as [Hd Hds]. rewrite Hd. auto.
Qed.

Lemma skip_digits_split (s : ustr) :
  exists ds, s = ds ++ skip_digits s /\ forallb decimal_digit ds = true.
Proof.
  induction s as [|c s (ds & Hs & Hds)]; simpl.
  - exists []. auto.
  - destruct (decimal_digit c) eqn:Hc.
    + exists (c :: ds). simpl. rewrite Hc, Hds. split; [now f_equal|reflexivity].
    + exists []. auto.
Qed.

Lemma Lang_pre_identifier (s : ustr) :
  Lang re_pre_identifier s <-> prerelease_identifier s = true.
Proof.
  unfold prerelease_identifier. split.
  - unfold re_pre_identifier. rewrite !Lang_Alt. intros H.
    assert (Hnum : Lang re_numeric s \/
                   Lang (Cat (Star re_digit) (Cat re_alpha (Star re_alnum))) s).
    { unfold re_numeric. rewrite Lang_Alt. tauto. }
    clear H. destruct Hnum as [H|H].
    + apply Lang_numeric in H. now rewrite H.
    + apply Lang_Cat in H as (ds & rest & -> & Hds & H).
      apply Lang_Cat in H as (a & post & -> & Ha & Hpost).
      apply Lang_Star_Class in Hds.
      apply Lang_Class in Ha as (c & -> & Hc).
      apply re_alnum_identifier in Hpost.
      cbn [app]. rewrite skip_digits_app by (auto using alpha_not_decimal).
      rewrite Hc, Hpost. apply orb_true_r.
  - intros H. apply orb_true_iff in H as [H|H].
    + apply Lang_numeric in H. unfold re_numeric in H. unfold re_pre_identifier.
      rewrite !Lang_Alt. rewrite Lang_Alt in H. tauto.
    + destruct (skip_digits_split s) as (ds & Hs & Hds).
      destruct (skip_digits s) as [|c post]; [discriminate|].
      apply andb_true_iff in H as [Hc Hpost]. rewrite Hs.
      unfold re_pre_identifier. rewrite !Lang_Alt. right. right.
      apply Lang_Cat. exists ds, (c :: post). split; [reflexivity|]. split.
      * now apply Lang_Star_Class.
      * apply Lang_Cat. exists [c], post. split; [reflexivity|]. split.
        -- apply Lang_Class. exists c. auto.
        -- now apply re_alnum_identifier.
Qed.

Lemma join_dots_cons (i : ustr) (ids : list ustr) :
  ids <> [] -> join_dots (i :: ids) = i ++ code "." :: join_dots ids.
Proof. destruct ids; [congruence|reflexivity]. Qed.

Lemma Lang_dot_items (r : regex) (t : ustr) :
  Lang (Star (Cat (Chr ".") r)) t ->
  forall i, Lang r i ->
  exists ids, ids <> [] /\ i ++ t = join_dots ids /\ Forall (Lang r) ids.
Proof.
  intros H. remember (Star (Cat (Chr ".") r)) as e eqn:Ee.
  induction H; try discriminate; intros i Hi.
  - exists [i]. rewrite List.app_nil_r. repeat split; [discriminate|auto].
  - injection Ee as ->.
    apply Lang_Cat in H as (d & j & -> & Hd & Hj).
    apply Lang_Chr in Hd. subst d.
    destruct (IHLang2 eq_refl j Hj) as (ids & Hne & Heq & Hall).
    exists (i :: ids). split; [discriminate|]. split; [|now constructor].
    rewrite join_dots_cons by assumption. rewrite <- Heq.
    now rewrite <- List.app_assoc.
Qed.

Lemma Lang_dotted (r : regex) (ok : ustr -> bool) (s : ustr) :
  (forall x, Lang r x <-> ok x = true) ->
  Lang (dotted r) s <->
  exists ids, ids <> [] /\ s = join_dots ids /\ forallb ok ids = true.
Proof.
  intros Hok. unfold dotted. rewrite Lang_Cat. split.
  - intros (i & t & -> & Hi & Ht).
    destruct (Lang_dot_items r t Ht i Hi) as (ids & Hne & Heq & Hall).
    exists ids. repeat split; auto.
    apply forallb_forall. intros x Hx. apply Hok.
    rewrite Forall_forall in Hall. auto.
  - intros (ids & Hne & -> & Hall).
    destruct ids as [|i ids]; [congruence|]. clear Hne.
    revert i Hall. induction ids as [|j ids IH]; intros i Hall.
    + exists i, []. simpl in *. rewrite List.app_nil_r.
      apply andb_true_iff in Hall as [Hi _].
      repeat split; [now apply Hok|constructor].
    + simpl in Hall. apply andb_true_iff in Hall as [Hi Hrest].
      destruct (IH j Hrest) as (j' & t & Heq & Hj & Ht).
      exists i, (code "." :: join_dots (j :: ids)).
      split; [reflexivity|]. split; [now apply Hok|].
      rewrite Heq. change (code "." :: j' ++ t) with ((code "." :: j') ++ t).
      constructor; [|exact Ht].
      change (code "." :: j') with ([code "."] ++ j').
      constructor; [now apply Lang_Chr|exact Hj].
Qed.

Lemma Lang_optional_part (c : ascii) (r : regex) (ok : ustr -> bool) (s : ustr) :
  (forall x, Lang r x <-> ok x = true) ->
  Lang (Opt (Cat (Chr c) (dotted r))) s <->
  exists ids, s = optional_part c ids /\ identifiers_ok ok ids.
Proof.
  intros Hok. rewrite Lang_Opt, Lang_Cat. split.
  - intros [(d & t & -> & Hd & Ht)| ->].
    + apply Lang_Chr in Hd. subst d.
      apply (Lang_dotted r ok t Hok) in Ht as (ids & Hne & -> & Hall).
      exists (Some ids). simpl. auto.
    + exists None. simpl. auto.
  - intros ([ids|] & -> & Hids); simpl in *; [left|now right].
    destruct Hids as [Hne Hall].
    exists [code c], (join_dots ids). split; [reflexivity|]. split.
    + now apply Lang_Chr.
    + apply (Lang_dotted r ok _ Hok). eauto.
Qed.

(** The pattern of the source and the grammar have the same strings. *)
Lemma semver_pattern_grammar (s : ustr) :
  Lang semver_pattern s <-> semver_grammar s.
Proof.
  unfold semver_pattern, semver_grammar. split.
  - intros H.
    apply Lang_Cat in H as (major & s1 & -> & Hmaj & H).
    apply Lang_Cat in H as (d1 & s2 & -> & Hd1 & H).
    apply Lang_Cat in H as (minor & s3 & -> & Hmin & H).
    apply Lang_Cat in H as (d2 & s4 & -> & Hd2 & H).
    apply Lang_Cat in H as (patch & s5 & -> & Hpat & H).
    apply Lang_Cat in H as (p & b & -> & Hp & Hb).
    apply Lang_Chr in Hd1, Hd2. subst d1 d2.
    apply Lang_numeric in Hmaj, Hmin, Hpat.
    apply (Lang_optional_part _ _ _ _ Lang_pre_identifier) in Hp as (pre & -> & Hpre).
    apply (Lang_optional_part _ _ _ _ Lang_build_identifier) in Hb as (build & -> & Hbuild).
    exists major, minor, patch, pre, build. simpl. auto 10.
  - intros (major & minor & patch & pre & build & -> & Hmaj & Hmin & Hpat & Hpre & Hbuild).
    constructor; [now apply Lang_numeric|].
    change (code "." :: minor ++ code "." :: patch
              ++ optional_part "-" pre ++ optional_part "+" build)
      with ([code "."] ++ minor ++ [code "."] ++ patch
              ++ optional_part "-" pre ++ optional_part "+" build).
    constructor; [now apply Lang_Chr|].
    constructor; [now apply Lang_numeric|].
    constructor; [now apply Lang_Chr|].
    constructor; [now apply Lang_numeric|].
    constructor.
    + apply (Lang_optional_part _ _ _ _ Lang_pre_identifier). eauto.
    + apply (Lang_optional_part _ _ _ _ Lang_build_identifier). eauto.
Qed.

Lemma semver_grammar_not_nil : ~ semver_grammar [].
Proof.
  intros (major & minor & patch & pre & build & H & Hmaj & _).
  destruct major; [discriminate|discriminate].
Qed.

Lemma is_valid_version_iff (v : ustr) :
  is_valid_version v = true <-> semver_grammar (ustrip v).
Proof.
  unfold is_valid_version. split.
  - destruct v as [|c v]; [discriminate|]. intros H.
    apply re_match_anchored_spec in H as [H|(s' & Hs & _)].
    + now apply semver_pattern_grammar.
    + apply ustrip_last in Hs. discriminate.
  - intros H. destruct v as [|c v].
    + now apply semver_grammar_not_nil in H.
    + apply re_match_anchored_spec. left. now apply semver_pattern_grammar.
Qed.

(** On the characters below U+0080 the validator does not depend on the
    Unicode database. *)
Lemma semver_pattern_ascii (V : Unicode) :
  agree (fun c => (c < 128)%N) (semver_pattern (U := U)) (semver_pattern (U := V)).
Proof.
  assert (Hd : agree (fun c => (c < 128)%N) (re_digit (U := U)) (re_digit (U := V))).
  { intros c Hc. now rewrite !decimal_digit_ascii. }
  assert (Hs : agree (fun c => (c < 128)%N) (Star (re_digit (U := U)))
                 (Star (re_digit (U := V)))) by exact Hd.
  unfold semver_pattern, re_numeric, re_pre_identifier, dotted, Opt,
    re_build_identifier, Plus, re_alpha, re_alnum, re_nonzero, Chr.
  cbn [agree]. repeat split; auto.
Qed.

Lemma is_valid_version_ascii (V : Unicode) (v : ustr) :
  forallb (fun c => (c <? 128)%N) v = true ->
  is_valid_version (U := U) v = is_valid_version (U := V) v.
Proof.
  intros Hv. unfold is_valid_version. destruct v as [|c v]; [reflexivity|].
  unfold re_match_anchored.
  apply (agree_fullmatch (fun c => (c < 128)%N)).
  - apply Forall_forall. intros x Hx. apply ustrip_in in Hx.
    rewrite forallb_forall in Hv. apply N.ltb_lt. now apply Hv.
  - cbn [agree]. split; [apply semver_pattern_ascii|].
    unfold Opt, Chr. cbn [agree]. auto.
Qed.

End ValidatorFacts.

(** C8, as the code has it.  [is_valid_version] accepts exactly the
    strings that match a grammar [MAJOR.MINOR.PATCH[-PRERELEASE][+BUILD]]
    once leading and trailing whitespace is stripped: three numbers, each
    [0] or a digit from [1] to [9] followed by decimal digits of any
    script; then an optional pre-release part of dot-separated
    identifiers, each such a number or decimal digits followed by a
    letter or hyphen and then letters, digits and hyphens of ASCII; then
    an optional build part of dot-separated identifiers of letters,
    digits and hyphens of ASCII.  It accepts ["1.0.0"] and
    ["1.0.0-alpha+001"] and rejects the empty string, ["1.0"] and
    ["v1.0.0"]. *)
Theorem is_valid_version_grammar {U : Unicode} :
  (forall v : ustr, is_valid_version v = true <-> semver_grammar (ustrip v)) /\
  is_valid_version (code_points "1.0.0"%string) = true /\
  is_valid_version (code_points "1.0.0-alpha+001"%string) = true /\
  is_valid_version [] = false /\
  is_valid_version (code_points "1.0"%string) = false /\
  is_valid_version (code_points "v1.0.0"%string) = false.
Proof.
  split; [exact is_valid_version_iff|].
  repeat split; try reflexivity;
    rewrite (is_valid_version_ascii Reference.unicode)
      by (vm_compute; reflexivity);
    vm_compute; reflexivity.
Qed.

(** C8 as stated fails, in three ways.  A version with a blank before it
    is accepted, and is not a string of the grammar of the
    specification.  So is a version whose first number goes on with an
    Arabic-Indic digit three, U+0663.  And a version whose pre-release
    part is the number [01] is a string of that grammar, which takes any
    identifier of letters, digits and hyphens there, and is rejected. *)
Lemma is_valid_version_accepts_padding :
  is_valid_version (U := Reference.unicode) (code_points " 1.0.0"%string) = true /\
  spec_grammar (code_points " 1.0.0"%string) = false /\
  is_valid_version (U := Reference.unicode) [49; 1635; 46; 48; 46; 48]%N = true /\
  spec_grammar [49; 1635; 46; 48; 46; 48]%N = false /\
  is_valid_version (U := Reference.unicode) (code_points "1.0.0-01"%string) = false /\
  spec_grammar (code_points "1.0.0-01"%string) = true.
Proof. repeat split; vm_compute; reflexivity. Qed.

(** ** Bumped versions are valid *)

Section BumpValid.
Context {U : Unicode}.

Lemma decimal_code (c : ascii) :
  isdecimal c = true -> decimal_digit (code c) = true /\ between 48 57 (code c) = true.
Proof.
  unfold isdecimal, in_range. intros H.
  assert (Hb : between 48 57 (code c) = true) by exact H.
  split; [|exact Hb].
  rewrite decimal_digit_ascii; [exact Hb|].
  unfold between in Hb. apply andb_true_iff in Hb as [_ Hb].
  apply N.leb_le in Hb. lia.
Qed.

Lemma decimal_code_not_space (c : ascii) :
  isdecimal c = true -> uisspace (code c) = false.
Proof. by_ascii_cases c. Qed.

Lemma int_text_numeric (n : Z) :
  (0 <= n)%Z -> numeric_identifier (code_points (int_text n)) = true.
Proof.
  intros Hn. destruct (int_text_digits n Hn) as (c & t & -> & Hall & Hz & _).
  simpl in Hall. apply andb_true_iff in Hall as [Hc Ht].
  cbn [code_points map numeric_identifier].
  destruct (Ascii.eqb c "0") eqn:Ec.
  - apply Ascii.eqb_eq in Ec. subst c. rewrite (Hz eq_refl). reflexivity.
  - apply orb_true_iff. right. apply andb_true_iff. split.
    + destruct (decimal_code c Hc) as [_ Hb]. unfold between in *.
      apply andb_true_iff in Hb as [Hlo Hhi]. apply andb_true_iff.
      split; [|exact Hhi]. apply N.leb_le in Hlo. apply N.leb_le.
      assert (code c <> 48%N); [|lia].
      intros E. unfold code in E. apply (f_equal ascii_of_N) in E.
      rewrite ascii_N_embedding in E. subst c. discriminate Ec.
    + apply forallb_forall. intros x Hx. apply in_map_iff in Hx as (y & <- & Hy).
      rewrite forallb_forall in Ht. now apply decimal_code, Ht.
Qed.

(** The text [a.b.c] of three non-negative integers is a valid version. *)
Lemma numbers_text_valid (a b c : Z) :
  (0 <= a)%Z -> (0 <= b)%Z -> (0 <= c)%Z ->
  is_valid_version
    (code_points (int_text a ++ "."%char :: int_text b ++ "."%char :: int_text c))
  = true.
Proof.
  intros Ha Hb Hc.
  pose proof (int_text_numeric a Ha) as Na.
  pose proof (int_text_numeric b Hb) as Nb.
  pose proof (int_text_numeric c Hc) as Nc.
  set (r := code_points (int_text a ++ "."%char :: int_text b ++ "."%char :: int_text c)).
  assert (Er : r = code_points (int_text a) ++ code "." :: code_points (int_text b)
                     ++ code "." :: code_points (int_text c)).
  { unfold r, code_points. rewrite map_app. simpl. rewrite map_app. reflexivity. }
  assert (Hg : semver_grammar r).
  { exists (code_points (int_text a)), (code_points (int_text b)),
      (code_points (int_text c)), None, None.
    simpl. rewrite List.app_nil_r. auto 10. }
  assert (Hs : ustrip r = r).
  { destruct (int_text_digits a Ha) as (x & A & EA & HA & _ & _).
    destruct (int_text_digits c Hc) as (z & C & EC & HC & _ & _).
    assert (Cne : int_text c <> []) by (rewrite EC; discriminate).
    destruct (exists_last Cne) as (C' & y & EC').
    rewrite Er, EA, EC'. unfold code_points. rewrite (map_app code C' [y]).
    cbn [map app].
    replace (code x :: map code A ++ code "." :: map code (int_text b)
               ++ code "." :: map code C' ++ [code y])
      with (code x :: (map code A ++ code "." :: map code (int_text b)
                         ++ code "." :: map code C') ++ [code y])
      by (rewrite <- !List.app_assoc; simpl; rewrite <- !List.app_assoc;
          reflexivity).
    apply ustrip_fixed; apply decimal_code_not_space.
    - simpl in HA. now apply andb_true_iff in HA as [? _].
    - rewrite <- EC, EC', forallb_app in HC. apply andb_true_iff in HC as [_ HC].
      simpl in HC. now apply andb_true_iff in HC as [? _]. }
  apply is_valid_version_iff. now rewrite Hs.
Qed.

(** X3.  A bump that succeeds gives a valid version: whatever parses
    can be bumped, for every kind of bump, as long as the number that is
    incremented stays below [int_text_limit]; and the bumped version is
    one [is_valid_version] accepts. *)
Theorem bump_version_valid (v kind : str) (t : Z * Z * Z) :
  parse_version_parts v = Ok t ->
  (bumped_part kind t + 1 < int_text_limit)%Z ->
  exists r, bump_version v kind = Ok r /\
            is_valid_version (code_points r) = true.
Proof.
  destruct t as [[a b] c]. intros Hp Hl.
  destruct (bump_version_text v kind _ _ _ Hp Hl)
    as (a' & b' & c' & -> & Ha & Hb & Hc & _).
  eexists. split; [reflexivity|]. apply numbers_text_valid; lia.
Qed.

End BumpValid.

Lemma bump_version_valid_witness :
  parse_version_parts "v2"%string = Ok (0, 0, 0)%Z /\
  (bumped_part "patch"%string (0, 0, 0) + 1 < int_text_limit)%Z /\
  exists r, bump_version "v2"%string "patch"%string = Ok r /\
            is_valid_version (U := Reference.unicode) (code_points r) = true.
Proof.
  assert (Hp : parse_version_parts "v2"%string = Ok (0, 0, 0)%Z)
    by (vm_compute; reflexivity).
  assert (Hl : (bumped_part "patch"%string (0, 0, 0) + 1 < int_text_limit)%Z)
    by (vm_compute; reflexivity).
  split; [exact Hp|]. split; [exact Hl|].
  exact (bump_version_valid (U := Reference.unicode) (list_ascii_of_string "v2")
           (list_ascii_of_string "patch") (0, 0, 0)%Z Hp Hl).
Defined.
(** ** The store *)

Section StorageFacts.
Context {R : Runtime}.

Lemma getattr_project_version (pv : PromptVersion) :
  getattr pv "project_version"%string
  = Raise (AttributeError (list_ascii_of_string "project_version")).
Proof. reflexivity. Qed.

Lemma filter_named_in (function_name_ k : str) (pv : PromptVersion)
    (index : list (str * PromptVersion)) :
  In (k, pv) index -> function_name pv = VStr function_name_ ->
  In pv (filter (named function_name_) (dict_values index)).
Proof.
  intros Hin Hfn. apply filter_In. split.
  - unfold dict_values. apply in_map_iff. now exists (k, pv).
  - unfold named. rewrite Hfn. apply str_eqb_refl.
Qed.

(** C3.  [get_latest_project_version] reads [x.project_version], an
    attribute that the records of [models.py] do not have: as soon as
    one stored record belongs to the owner, the call raises
    [AttributeError] instead of returning the record of greatest
    version. *)
Theorem get_latest_project_version_raises
    (st : PromptStorage) (function_name_ k : str) (pv : PromptVersion) :
  In (k, pv) (prompts st) ->
  function_name pv = VStr function_name_ ->
  get_latest_project_version st function_name_
  = Raise (AttributeError (list_ascii_of_string "project_version")).
Proof.
  intros Hin Hfn. unfold get_latest_project_version.
  pose proof (filter_named_in _ _ _ _ Hin Hfn) as Hv.
  destruct (filter (named function_name_) (dict_values (prompts st)))
    as [|x rest]; [destruct Hv|].
  reflexivity.
Qed.












End StorageFacts.

Section BuiltinFacts.
Context {R : Runtime}.
Variable py_str : attr -> str.
Variable py_gt : attr -> attr -> result bool.
Variable exn_str : exn -> str.

(** C1.  [add_prompt] builds its key from [prompt_version.project_version]
    and [prompt_version.agent_version], attributes that the records of
    [models.py] do not have: for every store and every record the call
    raises [AttributeError] before anything is inserted or written, so a
    following [get_prompt_by_combined_version] cannot find the record. *)
Theorem add_prompt_raises (st : PromptStorage) (pv : PromptVersion)
    (dir : directory) (now : datetime) (t : Z) :
  add_prompt py_str st pv dir now t
  = (Raise (AttributeError (list_ascii_of_string "project_version")), (st, dir)).
Proof. reflexivity. Qed.

Lemma wrapper_raising_directory (version_ : str) (description_ tags_ : pyval)
    (auto_version : bool) (c : call) (e : exn) (dir : directory)
    (now : datetime) (t : Z) :
  snd (wrapper py_str py_gt exn_str version_ description_ tags_ auto_version
         (raising c e) dir now t) = dir.
Proof.
  unfold wrapper. simpl.
  destruct (extracted_prompt c) as [[|a p]|]; try reflexivity.
  destruct (prepare _ _ _ _ _ _ _) as [[[fp st] v]|e']; reflexivity.
Qed.

(** C2.  When the wrapped function raises, the wrapper re-raises at once:
    the [raise] stands inside the [except] block, before the record is
    built and stored.  Whatever the call, the directory is left as it
    was; on the call [failing_call] in an empty directory the caller gets
    the original [Exception("boom")] and no file is written. *)
Theorem wrapper_failure_not_persisted (version_ : str) (description_ tags_ : pyval)
    (auto_version : bool) (c : call) (e : exn) (dir : directory)
    (now : datetime) (t : Z) :
  snd (wrapper py_str py_gt exn_str version_ description_ tags_ auto_version
         (raising c e) dir now t) = dir /\
  wrapper py_str py_gt exn_str "1.0.0"%string VNone VNone true
    failing_call [] now t
  = (Raise (Exception (list_ascii_of_string "boom")), []).
Proof.
  split; [apply wrapper_raising_directory|reflexivity].
Qed.

End BuiltinFacts.

(** ** The store on concrete directories *)

Lemma error_of_Raise {A : Type} (r : result A) (e : exn) :
  error_of r = Some e -> r = Raise e.
Proof. destruct r; simpl; congruence. Qed.

Lemma named_spec {R : Runtime} (function_name_ : str) (pv : PromptVersion) :
  named function_name_ pv = true -> function_name pv = VStr function_name_.
Proof.
  unfold named. destruct (function_name pv); try discriminate.
  intros H. apply str_eqb_eq in H. now subst.
Qed.

Lemma get_latest_project_version_raises_witness :
  exists (st : PromptStorage (R := Reference.runtime)) (k : str)
         (pv : PromptVersion (R := Reference.runtime)),
    PromptStorage_init (R := Reference.runtime) "app"%string two_versions_dir
      Reference.a_time = Ok st /\
    In (k, pv) (prompts st) /\
    function_name pv = VStr (list_ascii_of_string "greet") /\
    get_latest_project_version st "greet"%string
    = Raise (AttributeError (list_ascii_of_string "project_version")).
Proof.
  pose (first_named := fun r : result (PromptStorage (R := Reference.runtime)) =>
          match r with
          | Ok st =>
              match prompts st with
              | (_, pv) :: _ => named (list_ascii_of_string "greet") pv
              | [] => false
              end
          | Raise _ => false
          end).
  assert (H : first_named
                (PromptStorage_init (R := Reference.runtime) "app"%string
                   two_versions_dir Reference.a_time) = true)
    by (vm_compute; reflexivity).
  destruct (PromptStorage_init (R := Reference.runtime) "app"%string
              two_versions_dir Reference.a_time) as [st|e];
    [|discriminate H].
  unfold first_named in H.
  destruct (prompts st) as [|[k pv] rest] eqn:Hp; [discriminate H|].
  apply named_spec in H.
  assert (Hin : In (k, pv) (prompts st)) by (rewrite Hp; now left).
  exists st, k, pv. split; [reflexivity|].
  split; [exact Hin|]. split; [exact H|].
  exact (get_latest_project_version_raises (R := Reference.runtime)
           st _ k pv Hin H).
Defined.



(** ** The directory *)

Lemma insert_newest_first_perm (f : file) (l : list file) :
  Permutation (insert_newest_first f l) (f :: l).
Proof.
  induction l as [|g l IH]; simpl; [reflexivity|].
  destruct (file_mtime f <? file_mtime g)%Z; [|reflexivity].
  rewrite IH. apply perm_swap.
Qed.

Lemma insert_newest_first_sorted (f : file) (l : list file) :
  Sorted newer_or_equal l -> Sorted newer_or_equal (insert_newest_first f l).
Proof.
  induction l as [|g l IH]; intros Hs; simpl.
  - repeat constructor.
  - destruct (file_mtime f <? file_mtime g)%Z eqn:E.
    + inversion Hs as [|? ? Hs' Hhd]; subst. constructor; [now apply IH|].
      destruct l as [|h l]; simpl.
      * constructor. unfold newer_or_equal. apply Z.ltb_lt in E. lia.
      * destruct (file_mtime f <? file_mtime h)%Z.
        -- constructor. now inversion Hhd.
        -- constructor. unfold newer_or_equal. apply Z.ltb_lt in E. lia.
    + constructor; [exact Hs|]. constructor.
      unfold newer_or_equal. apply Z.ltb_ge in E. lia.
Qed.



(** X8.  [list_timestamped_files] returns exactly the files whose name
    matches [prompts_*.json], each once, the newest first; the legacy
    file [prompts.json] is never among them. *)
Theorem list_timestamped_files_spec (dir : directory) :
  Sorted newer_or_equal (list_timestamped_files dir) /\
  Permutation (list_timestamped_files dir)
    (filter (fun f => is_timestamped_name (file_name f)) dir) /\
  (forall f, In f (list_timestamped_files dir) -> file_name f <> legacy_name).
Proof.
  unfold list_timestamped_files.
  set (l := filter (fun f => is_timestamped_name (file_name f)) dir).
  assert (Hp : Permutation (fold_right insert_newest_first [] l) l).
  { induction l as [|f l IH]; simpl; [reflexivity|].
    rewrite insert_newest_first_perm. now constructor. }
  split; [|split; [exact Hp|]].
  - induction l as [|f l' IH]; simpl; [constructor|].
    apply insert_newest_first_sorted. apply IH.
    clear. induction l' as [|f l IH]; simpl; [reflexivity|].
    rewrite insert_newest_first_perm. now constructor.
  - intros f Hf Hname.
    apply (Permutation_in _ Hp) in Hf. unfold l in Hf.
    apply filter_In in Hf as [_ Hf]. rewrite Hname in Hf. discriminate.
Qed.










Section SaveFacts.
Context {R : Runtime}.




End SaveFacts.


(** ** The index *)

Section IndexFacts.
Context {V : Type}.

Lemma dict_set_keys (k k' : str) (v : V) (d : list (str * V)) :
  In k' (map fst (dict_set k v d)) <-> k' = k \/ In k' (map fst d).
Proof.
  induction d as [|[a b] d IH]; simpl.
  - intuition congruence.
  - destruct (str_eqb k a) eqn:E; simpl.
    + apply str_eqb_eq in E. subst a. intuition congruence.
    + rewrite IH. intuition congruence.
Qed.

Lemma dict_set_NoDup (k : str) (v : V) (d : list (str * V)) :
  NoDup (map fst d) -> NoDup (map fst (dict_set k v d)).
Proof.
  induction d as [|[a b] d IH]; simpl; intros Hn.
  - constructor; [intros []|constructor].
  - inversion Hn as [|? ? Ha Hd]; subst.
    destruct (str_eqb k a) eqn:E; simpl.
    + apply str_eqb_eq in E. subst a. now constructor.
    + constructor; [|now apply IH].
      rewrite dict_set_keys. intros [->|H]; [|contradiction].
      now rewrite str_eqb_refl in E.
Qed.

Lemma dict_set_in (k k' : str) (v v' : V) (d : list (str * V)) :
  In (k', v') (dict_set k v d) -> (k' = k /\ v' = v) \/ In (k', v') d.
Proof.
  induction d as [|[a b] d IH]; simpl.
  - intros [H|[]]. left. now injection H as <- <-.
  - destruct (str_eqb k a); simpl.
    + intros [H|H]; [left; now injection H as <- <-|right; now right].
    + intros [H|H]; [right; now left|].
      destruct (IH H) as [?|?]; [now left|right; now right].
Qed.


Lemma dict_set_not_nil (k : str) (v : V) (d : list (str * V)) :
  dict_set k v d <> [].
Proof.
  destruct d as [|[a b] d]; simpl; [discriminate|].
  destruct (str_eqb k a); discriminate.
Qed.


End IndexFacts.

Ltac step_binds H :=
  repeat match type of H with
         | bind ?r _ = Ok _ =>
             let E := fresh "E" in
             destruct r eqn:E; [cbn [bind] in H|discriminate H]
         end.

Section LoadFacts.
Context {R : Runtime}.

Lemma init_hash (p v fn d t : pyval) (c : option datetime) (i o et eid : pyval)
    (now : datetime) (r : PromptVersion) :
  PromptVersion_init p v fn d t c i o et eid now = Ok r ->
  prompt_hash r = firstn 8 (md5_hexdigest (prompt r)).
Proof.
  unfold PromptVersion_init. destruct p; try discriminate.
  intros H. injection H as <-. reflexivity.
Qed.

Lemma constructed_hash (pv : PromptVersion) :
  constructed pv -> prompt_hash pv = firstn 8 (md5_hexdigest (prompt pv)).
Proof.
  intros (p & v & fn & d & t & c & i & o & et & eid & now & H).
  eapply init_hash; eauto.
Qed.

Lemma from_dict_constructed (data : pyval) (now : datetime) (pv : PromptVersion) :
  from_dict data now = Ok pv -> constructed pv.
Proof.
  unfold from_dict. intros H. step_binds H.
  unfold constructed. eauto 12.
Qed.


Lemma index_ok_nil : index_ok [].
Proof. split; [constructor|intros k pv []]. Qed.

Lemma load_items_ok (items : list (str * pyval)) (acc : list (str * PromptVersion))
    (now : datetime) :
  index_ok acc -> index_ok (fst (load_items acc items now)).
Proof.
  revert acc. induction items as [|[k v] items IH]; intros acc Hacc; simpl;
    [exact Hacc|].
  destruct (from_dict v now) as [pv|e] eqn:E; [|exact Hacc].
  apply IH. destruct Hacc as [Hn Hc]. split; [now apply dict_set_NoDup|].
  intros k' pv' Hin. apply dict_set_in in Hin as [[_ ->]|Hin];
    [now apply from_dict_constructed in E|eauto].
Qed.

Lemma load_file_ok (acc : list (str * PromptVersion)) (f : file) (now : datetime) :
  index_ok acc -> index_ok (fst (load_file acc f now)).
Proof.
  intros Hacc. unfold load_file.
  destruct (file_data f) as [|v|e]; [exact Hacc| |exact Hacc].
  destruct v; try exact Hacc. now apply load_items_ok.
Qed.

Lemma load_legacy_ok (acc index : list (str * PromptVersion)) (dir : directory)
    (now : datetime) :
  index_ok acc -> load_legacy acc dir now = Ok index -> index_ok index.
Proof.
  intros Hacc. unfold load_legacy.
  destruct (lookup_file legacy_name dir) as [f|];
    [|intros H; now injection H as <-].
  pose proof (load_file_ok acc f now Hacc) as Hf.
  destruct (load_file acc f now) as [i [e|]]; simpl in Hf.
  - destruct (caught e); [|discriminate]. intros H. injection H as <-.
    apply index_ok_nil.
  - intros H. now injection H as <-.
Qed.

Lemma load_prompts_ok (dir : directory) (now : datetime)
    (index : list (str * PromptVersion)) :
  _load_prompts dir now = Ok index -> index_ok index.
Proof.
  intros H. unfold _load_prompts in H.
  destruct (list_timestamped_files dir) as [|latest rest].
  - eapply load_legacy_ok; [apply index_ok_nil|exact H].
  - pose proof (load_file_ok [] latest now index_ok_nil) as Hf.
    destruct (load_file [] latest now) as [i [e|]]; simpl in Hf.
    + destruct (caught e); [|discriminate].
      eapply load_legacy_ok; [exact Hf|exact H].
    + now injection H as <-.
Qed.

(** X10.  The index of a store that loaded has one record per key, and
    every record in it went through the constructor: its hash is the
    first eight characters of the digest of its prompt, whatever
    [prompt_hash] the file held. *)
Theorem loaded_index_invariant (dir : directory) (now : datetime)
    (index : list (str * PromptVersion)) :
  _load_prompts dir now = Ok index ->
  NoDup (map fst index) /\
  (forall k pv, In (k, pv) index ->
     constructed pv /\
     prompt_hash pv = firstn 8 (md5_hexdigest (prompt pv))).
Proof.
  intros H. destruct (load_prompts_ok _ _ _ H) as [Hn Hc]. split; [exact Hn|].
  intros k pv Hin. split; [eauto|]. apply constructed_hash. eauto.
Qed.

End LoadFacts.

Lemma loaded_index_invariant_witness :
  exists index,
    _load_prompts (R := Reference.runtime) two_versions_dir Reference.a_time
    = Ok index /\
    NoDup (map fst index).
Proof.
  destruct (_load_prompts (R := Reference.runtime) two_versions_dir
              Reference.a_time) as [index|e] eqn:E.
  - exists index. split; [reflexivity|].
    exact (proj1 (loaded_index_invariant (R := Reference.runtime) _ _ _ E)).
  - apply (f_equal returns) in E. vm_compute in E. discriminate E.
Defined.

(** ** Saving and loading *)


Section RoundTrip.
Context {R : Runtime}.




End RoundTrip.


(** ** A snapshot that fails half-way *)

Section PartialLoad.
Context {R : Runtime}.

Lemma load_items_app (a b : list (str * pyval)) (acc : list (str * PromptVersion))
    (now : datetime) :
  load_items acc (a ++ b) now =
  match load_items acc a now with
  | (index, None) => load_items index b now
  | (index, Some e) => (index, Some e)
  end.
Proof.
  revert acc. induction a as [|[k v] a IH]; intros acc; simpl; [reflexivity|].
  destruct (from_dict v now); [apply IH|reflexivity].
Qed.

Lemma load_items_not_nil (items : list (str * pyval))
    (acc : list (str * PromptVersion)) (now : datetime) :
  acc <> [] -> fst (load_items acc items now) <> [].
Proof.
  revert acc. induction items as [|[k v] items IH]; intros acc Hacc; simpl;
    [exact Hacc|].
  destruct (from_dict v now); [|exact Hacc].
  apply IH, dict_set_not_nil.
Qed.

(** X13.  When the newest snapshot fails at an entry for want of a
    required key and there is no legacy file, the store does not start
    empty: it keeps the entries that came before the failing one. *)
Theorem partial_snapshot_kept (dir : directory) (now : datetime)
    (latest : file) (rest : list file)
    (good more : list (str * pyval)) (k key : str) (bad : pyval) :
  list_timestamped_files dir = latest :: rest ->
  file_data latest = JSON (VDict (good ++ (k, bad) :: more)) ->
  snd (load_items [] good now) = None ->
  from_dict bad now = Raise (KeyError key) ->
  lookup_file legacy_name dir = None ->
  _load_prompts dir now = Ok (fst (load_items [] good now)) /\
  (good <> [] -> fst (load_items [] good now) <> []).
Proof.
  intros Hts Hdata Hgood Hbad Hleg. split.
  - unfold _load_prompts. rewrite Hts. unfold load_file. rewrite Hdata.
    rewrite load_items_app.
    destruct (load_items [] good now) as [index o]. simpl in Hgood. subst o.
    simpl. rewrite Hbad. simpl. unfold load_legacy. now rewrite Hleg.
  - destruct good as [|[k0 v0] good]; [congruence|]. intros _.
    simpl in *. destruct (from_dict v0 now) as [pv|e]; [|discriminate Hgood].
    apply load_items_not_nil. discriminate.
Qed.

End PartialLoad.

Lemma partial_snapshot_kept_witness :
  exists index,
    _load_prompts (R := Reference.runtime) half_snapshot Reference.a_time
    = Ok index /\ index <> [].
Proof.
  destruct (partial_snapshot_kept (R := Reference.runtime)
              half_snapshot Reference.a_time
              {| file_name := list_ascii_of_string "prompts_app_20240102_030405.json";
                 file_mtime := 1704164645;
                 file_data :=
                   JSON (VDict [ (list_ascii_of_string "greet_1.0.0",
                                  greet_record "1.0.0");
                                 (list_ascii_of_string "greet_1.1.0", VDict []) ]) |}
              []
              [(list_ascii_of_string "greet_1.0.0", greet_record "1.0.0")]
              [] (list_ascii_of_string "greet_1.1.0")
              (list_ascii_of_string "prompt") (VDict []))
    as [Hload Hne].
  - vm_compute. reflexivity.
  - reflexivity.
  - vm_compute. reflexivity.
  - apply error_of_Raise. vm_compute. reflexivity.
  - vm_compute. reflexivity.
  - eexists. split; [exact Hload|]. apply Hne. discriminate.
Defined.

(** ** Latest by agent version, and the wrapper *)

Section CallerFacts.
Context {R : Runtime}.
Variable py_str : attr -> str.
Variable py_gt : attr -> attr -> result bool.
Variable exn_str : exn -> str.

Lemma add_prompt_stops (st : PromptStorage) (pv : PromptVersion)
    (dir : directory) (now : datetime) (t : Z) :
  add_prompt py_str st pv dir now t
  = (Raise (AttributeError (list_ascii_of_string "project_version")), (st, dir)).
Proof. reflexivity. Qed.

(** X14.  [get_latest_version] never returns a record: it answers [None]
    when no stored record belongs to the owner, and otherwise raises
    [AttributeError], because its key is the attribute [agent_version],
    which no record has. *)
Theorem get_latest_version_outcome (st : PromptStorage) (function_name_ : str) :
  get_latest_version py_gt st function_name_ =
  if existsb (named function_name_) (dict_values (prompts st))
  then Raise (AttributeError (list_ascii_of_string "agent_version"))
  else Ok None.
Proof.
  unfold get_latest_version.
  induction (dict_values (prompts st)) as [|pv l IH]; simpl; [reflexivity|].
  destruct (named function_name_ pv); simpl; [reflexivity|exact IH].
Qed.

(** X15.  What a call through the wrapper gives.  Without a prompt the
    wrapper is the function itself.  With a prompt the caller never gets
    a value: the wrapper raises (the error of the storage, of the
    function, or the [AttributeError] of [add_prompt]); and in both
    cases the directory is left as it was. *)
Theorem wrapper_outcome (version_ : str) (description_ tags_ : pyval)
    (auto_version : bool) (c : call) (dir : directory) (now : datetime) (t : Z) :
  match extracted_prompt c with
  | None | Some [] =>
      wrapper py_str py_gt exn_str version_ description_ tags_ auto_version
        c dir now t = (outcome c, dir)
  | Some _ =>
      exists e,
        wrapper py_str py_gt exn_str version_ description_ tags_ auto_version
          c dir now t = (Raise e, dir)
  end.
Proof.
  unfold wrapper.
  destruct (extracted_prompt c) as [[|a p]|]; try reflexivity.
  destruct (prepare _ _ _ _ _ _ _) as [[[fp st] v]|e]; [|eauto].
  destruct (outcome c) as [o|e]; [|eauto].
  destruct (PromptVersion_init _ _ _ _ _ _ _ _ _ _ _) as [pv|e]; [|eauto].
  rewrite add_prompt_stops. cbn [bind]. eauto.
Qed.

End CallerFacts.

(** ** The decorator's gate, and the project versions *)

Lemma ustr_eqb_eq (a b : ustr) : ustr_eqb a b = true <-> a = b.
Proof.
  revert b. induction a as [|x a IH]; intros [|y b]; simpl;
    try (split; [discriminate|discriminate]); try tauto.
  rewrite andb_true_iff, N.eqb_eq, IH. split; [intros [-> ->]|intros H];
    [reflexivity|injection H; auto].
Qed.

Lemma code_points_inj (a b : str) : code_points a = code_points b -> a = b.
Proof.
  revert b. induction a as [|x a IH]; intros [|y b]; simpl; try discriminate;
    [reflexivity|].
  intros H. injection H as Hc Ht. f_equal; [|now apply IH].
  unfold code in Hc. rewrite <- (ascii_N_embedding x), <- (ascii_N_embedding y).
  now rewrite Hc.
Qed.

Section GateFacts.
Context {R : Runtime} {U : Unicode}.
Variable py_str : attr -> str.
Variable py_gt : attr -> attr -> result bool.
Variable exn_str : exn -> str.

Lemma check_version_spec (version : ustr) :
  (check_version version = Ok tt <->
   version = code_points "auto"%string \/ semver_grammar (ustrip version)) /\
  (check_version version <> Ok tt -> check_version version = Raise ValueError).
Proof.
  unfold check_version. destruct version as [|c t].
  - split; [|reflexivity]. split; [discriminate|].
    intros [H|H]; [discriminate|now apply semver_grammar_not_nil in H].
  - destruct (ustr_eqb (c :: t) (code_points "auto"%string)) eqn:Ea;
      cbn [negb andb].
    + apply ustr_eqb_eq in Ea. split; [|congruence]. split; auto.
    + destruct (is_valid_version (c :: t)) eqn:Ev; cbn [negb andb].
      * split; [|congruence]. split; [|reflexivity].
        intros _. right. now apply is_valid_version_iff.
      * split; [|reflexivity]. split; [discriminate|].
        intros [H|H].
        -- apply ustr_eqb_eq in H. rewrite H in Ea. discriminate Ea.
        -- apply is_valid_version_iff in H. congruence.
Qed.

(** X17.  The decorator wraps a function exactly when its version is
    the word [auto] or one that [is_valid_version] accepts: stripped of
    surrounding whitespace, a version of the grammar of the validator.
    Any other version is refused with [ValueError] before a function is
    wrapped.  The test is stated on the code points of any version, and
    then for the decorator on a version of the range of [str]. *)
Theorem chorus_gate :
  (forall version : ustr,
      (check_version version = Ok tt <->
       version = code_points "auto"%string \/ semver_grammar (ustrip version)) /\
      (check_version version <> Ok tt ->
       check_version version = Raise ValueError)) /\
  (forall (version_ : str) (description_ tags_ : pyval) (auto_version : bool),
      (returns (chorus py_str py_gt exn_str version_ description_ tags_ auto_version)
       = true <->
       version_ = list_ascii_of_string "auto" \/
       semver_grammar (ustrip (code_points version_))) /\
      (returns (chorus py_str py_gt exn_str version_ description_ tags_ auto_version)
       = false ->
       error_of (chorus py_str py_gt exn_str version_ description_ tags_ auto_version)
       = Some ValueError)).
Proof.
  split; [exact check_version_spec|].
  intros version_ description_ tags_ auto_version. unfold chorus.
  destruct (check_version_spec (code_points version_)) as [Hok Hbad].
  destruct (check_version (code_points version_)) as [[]|e] eqn:E; simpl.
  - split; [|discriminate]. split; [|reflexivity]. intros _.
    destruct (proj1 Hok eq_refl) as [H|H]; [left|now right].
    now apply code_points_inj.
  - assert (He : Raise e = Raise (A := unit) ValueError)
      by (apply Hbad; discriminate).
    injection He as ->. split; [|reflexivity]. split; [discriminate|].
    intros [->|H]; [|].
    + assert (Hx : Raise (A := unit) ValueError = Ok tt)
        by (apply Hok; now left).
      discriminate Hx.
    + assert (Hx : Raise (A := unit) ValueError = Ok tt)
        by (apply Hok; now right).
      discriminate Hx.
Qed.

End GateFacts.


Lemma dict_get_set_same {V : Type} (k : str) (v : V) (d : list (str * V)) :
  dict_get k (dict_set k v d) = Some v.
Proof.
  induction d as [|[a b] d IH]; simpl.
  - now rewrite str_eqb_refl.
  - destruct (str_eqb k a) eqn:E; simpl; [now rewrite str_eqb_refl|].
    now rewrite E.
Qed.

Lemma dict_get_set_other {V : Type} (k k' : str) (v : V) (d : list (str * V)) :
  k' <> k -> dict_get k' (dict_set k v d) = dict_get k' d.
Proof.
  intros Hn. induction d as [|[a b] d IH]; simpl.
  - now rewrite (str_eqb_neq _ _ Hn).
  - destruct (str_eqb k a) eqn:E; simpl.
    + apply str_eqb_eq in E. subst a. now rewrite (str_eqb_neq _ _ Hn).
    + destruct (str_eqb k' a); [reflexivity|exact IH].
Qed.

Lemma dict_get_none {V : Type} (k : str) (d : list (str * V)) :
  ~ In k (map fst d) -> dict_get k d = None.
Proof.
  induction d as [|[a b] d IH]; simpl; intros Hn; [reflexivity|].
  destruct (str_eqb k a) eqn:E.
  - apply str_eqb_eq in E. subst a. exfalso. apply Hn. now left.
  - apply IH. intros H. apply Hn. now right.
Qed.


Section ProjectVersionFacts.
Context {R : Runtime}.


End ProjectVersionFacts.

(** ** Looking up what was loaded *)

Section LookupFacts.
Context {R : Runtime}.

Lemma load_items_other_key (items : list (str * pyval))
    (acc : list (str * PromptVersion)) (now : datetime) (k : str) :
  ~ In k (map fst items) ->
  dict_get k (fst (load_items acc items now)) = dict_get k acc.
Proof.
  revert acc. induction items as [|[k0 v0] items IH]; intros acc Hn; simpl;
    [reflexivity|].
  destruct (from_dict v0 now) as [pv0|e]; [|reflexivity].
  rewrite IH by (intros H; apply Hn; now right).
  apply dict_get_set_other. intros ->. apply Hn. now left.
Qed.

Lemma load_items_lookup (items : list (str * pyval))
    (acc : list (str * PromptVersion)) (now : datetime) (k : str) (v : pyval)
    (pv : PromptVersion) :
  NoDup (map fst items) ->
  snd (load_items acc items now) = None ->
  dict_get k items = Some v -> from_dict v now = Ok pv ->
  dict_get k (fst (load_items acc items now)) = Some pv.
Proof.
  revert acc. induction items as [|[k0 v0] items IH]; intros acc Hn Hall Hk Hv;
    [discriminate|].
  simpl in *. inversion Hn as [|? ? Hk0 Hn']; subst.
  destruct (from_dict v0 now) as [pv0|e] eqn:E0; [|discriminate Hall].
  destruct (str_eqb k k0) eqn:E.
  - apply str_eqb_eq in E. subst k0. injection Hk as ->.
    rewrite load_items_other_key by exact Hk0.
    rewrite dict_get_set_same. congruence.
  - now apply IH.
Qed.

(** X19.  A store that loaded a whole snapshot finds, under an owner and
    a version, the record built from the snapshot entry whose key is
    the owner, an underscore and the version. *)
Theorem loaded_record_found (source : str) (dir : directory) (now : datetime)
    (latest : file) (rest : list file) (items : list (str * pyval))
    (function_name_ version_ : str) (v : pyval) (pv : PromptVersion) :
  list_timestamped_files dir = latest :: rest ->
  file_data latest = JSON (VDict items) ->
  NoDup (map fst items) ->
  snd (load_items [] items now) = None ->
  dict_get (function_name_ ++ "_"%char :: version_) items = Some v ->
  from_dict v now = Ok pv ->
  exists st,
    PromptStorage_init source dir now = Ok st /\
    get_prompt_by_combined_version st function_name_ version_ = Some pv.
Proof.
  intros Hts Hdata Hn Hall Hk Hv.
  unfold PromptStorage_init, _load_prompts. rewrite Hts.
  unfold load_file. rewrite Hdata.
  pose proof (load_items_lookup items [] now _ v pv Hn Hall Hk Hv) as Hl.
  destruct (load_items [] items now) as [index o]. simpl in Hall, Hl. subst o.
  cbn [bind]. eexists. split; [reflexivity|].
  unfold get_prompt_by_combined_version. exact Hl.
Qed.

End LookupFacts.

Lemma loaded_record_found_witness :
  exists (st : PromptStorage (R := Reference.runtime))
         (pv : PromptVersion (R := Reference.runtime)),
    PromptStorage_init (R := Reference.runtime) "app"%string two_versions_dir
      Reference.a_time = Ok st /\
    get_prompt_by_combined_version st "greet"%string "1.1.0"%string = Some pv /\
    version pv = VStr (list_ascii_of_string "1.1.0").
Proof.
  destruct (from_dict (R := Reference.runtime) (greet_record "1.1.0")
              Reference.a_time) as [pv|e] eqn:E.
  - destruct (loaded_record_found (R := Reference.runtime)
                (list_ascii_of_string "app") two_versions_dir Reference.a_time
                {| file_name :=
                     list_ascii_of_string "prompts_app_20240102_030405.json";
                   file_mtime := 1704164645;
                   file_data := JSON two_versions |}
                [] [ (list_ascii_of_string "greet_1.0.0", greet_record "1.0.0");
                     (list_ascii_of_string "greet_1.1.0", greet_record "1.1.0") ]
                (list_ascii_of_string "greet") (list_ascii_of_string "1.1.0")
                (greet_record "1.1.0") pv)
      as (st & Hst & Hget).
    + vm_compute. reflexivity.
    + reflexivity.
    + repeat constructor; simpl; intuition discriminate.
    + vm_compute. reflexivity.
    + vm_compute. reflexivity.
    + exact E.
    + exists st, pv. split; [exact Hst|]. split; [exact Hget|].
      assert (Hv : match from_dict (R := Reference.runtime)
                             (greet_record "1.1.0") Reference.a_time with
                   | Ok x => version x
                   | Raise _ => VNone
                   end = VStr (list_ascii_of_string "1.1.0"))
        by (vm_compute; reflexivity).
      rewrite E in Hv. exact Hv.
  - apply (f_equal returns) in E. vm_compute in E. discriminate E.
Defined.


(** ** [MyClass] *)

Lemma fold_dict_set_get {V : Type} (kvs d : list (str * V)) (k : str) :
  dict_get k (fold_left (fun d kv => dict_set (fst kv) (snd kv) d) kvs d)
  = match find (fun kv => str_eqb k (fst kv)) (rev kvs) with
    | Some kv => Some (snd kv)
    | None => dict_get k d
    end.
Proof.
  induction kvs as [|[k0 v0] kvs IH] using rev_ind; [reflexivity|].
  rewrite fold_left_app, rev_unit. cbn [fold_left find fst snd].
  destruct (str_eqb k k0) eqn:E.
  - apply str_eqb_eq in E. subst k0. apply dict_get_set_same.
  - rewrite dict_get_set_other; [exact IH|].
    intros ->. now rewrite str_eqb_refl in E.
Qed.

Lemma fold_dict_set_keys {V : Type} (kvs d : list (str * V)) (k : str) :
  In k (map fst (fold_left (fun d kv => dict_set (fst kv) (snd kv) d) kvs d))
  <-> In k (map fst kvs) \/ In k (map fst d).
Proof.
  revert d. induction kvs as [|[k0 v0] kvs IH]; intros d; simpl; [tauto|].
  rewrite IH, dict_set_keys. intuition congruence.
Qed.

Lemma fold_dict_set_NoDup {V : Type} (kvs d : list (str * V)) :
  NoDup (map fst d) ->
  NoDup (map fst (fold_left (fun d kv => dict_set (fst kv) (snd kv) d) kvs d)).
Proof.
  revert d. induction kvs as [|[k0 v0] kvs IH]; intros d Hn; simpl; [exact Hn|].
  apply IH. now apply dict_set_NoDup.
Qed.

Lemma MyClass_adds_data (o : Core.MyClass) (kvs : list (str * pyval)) :
  Core._data (fold_left (fun o kv => Core.add_data o (fst kv) (snd kv)) kvs o)
  = fold_left (fun d kv => dict_set (fst kv) (snd kv) d) kvs (Core._data o) /\
  Core.name (fold_left (fun o kv => Core.add_data o (fst kv) (snd kv)) kvs o)
  = Core.name o /\
  Core.value (fold_left (fun o kv => Core.add_data o (fst kv) (snd kv)) kvs o)
  = Core.value o.
Proof.
  revert o. induction kvs as [|kv kvs IH]; intros o; simpl; [auto|].
  destruct (IH (Core.add_data o (fst kv) (snd kv))) as (Hd & Hn & Hv).
  now rewrite Hd, Hn, Hv.
Qed.

(** X21.  An object of [MyClass] after any sequence of [add_data]:
    [get_data] gives the value of the last [add_data] under the key and
    [None] for a key never added; [list_keys] holds exactly the keys
    added, each once; the name and the value are those of the
    constructor. *)
Theorem MyClass_after_adds (name_ : str) (value_ : pyval)
    (kvs : list (str * pyval)) (k : str) :
  let o := fold_left (fun o kv => Core.add_data o (fst kv) (snd kv)) kvs
             (Core.MyClass_init name_ value_) in
  Core.get_data o k
  = match find (fun kv => str_eqb k (fst kv)) (rev kvs) with
    | Some kv => snd kv
    | None => VNone
    end /\
  NoDup (Core.list_keys o) /\
  (In k (Core.list_keys o) <-> In k (map fst kvs)) /\
  Core.name o = name_ /\ Core.value o = value_.
Proof.
  intros o. subst o.
  destruct (MyClass_adds_data (Core.MyClass_init name_ value_) kvs)
    as (Hd & Hn & Hv).
  unfold Core.get_data, Core.list_keys. rewrite Hd, Hn, Hv. cbn [Core._data
    Core.MyClass_init Core.name Core.value].
  split; [|split; [|split; [|split; reflexivity]]].
  - rewrite fold_dict_set_get.
    now destruct (find (fun kv => str_eqb k (fst kv)) (rev kvs)).
  - apply fold_dict_set_NoDup. constructor.
  - rewrite fold_dict_set_keys. simpl. tauto.
Qed.

